(** * Bulk index build and the Rocks collection catalog entry

    A shallow embedding of

    - [src/mongo/db/storage/rocks/rocks_collection_catalog_entry.cpp]
      (module [Catalog]): the catalog metadata of a collection, its BSON
      form, the methods that read and update it, and the memory the specs
      of a parsed [MetaData] point to;
    - [src/mongo/db/index/btree_based_bulk_access_method.cpp]
      (module [Bulk]): the comparator handed to the external sorter, the
      [insert] accumulator and the consumption loop of [commit].

    C++ exceptions, failed invariants and undefined behaviour are results
    of type [outcome];
    calls on collaborators (progress meter, catalog, builder) are recorded
    in an event trace so that their number and order can be stated.  The
    definitions come first; the properties follow in [CatalogTheory] and
    [BulkTheory]. *)

From stdpp Require Import gmap strings list sorting pretty.
From Stdlib Require Import ZArith Lia.

Local Open Scope Z_scope.
Set Warnings "-register-all".

(* ===================================================================== *)
(** ** Results of fallible code *)
(* ===================================================================== *)

(** How a C++ call ends: it returns, it throws (a failed [uassert]/[chk] of
    the BSON accessors), it dies on a failed [invariant], it reads a
    vector out of range, or it reads through a pointer to memory that has
    been destroyed.  The last two are undefined behaviour: the language
    promises nothing of the program from there on, a crash and a result
    that looks right included. *)
Inductive outcome (A : Type) : Type :=
| Returns (a : A)
| Throws
| InvariantFailed
| OutOfRange
| UseAfterFree.
Arguments Returns {A} a.
Arguments Throws {A}.
Arguments InvariantFailed {A}.
Arguments OutOfRange {A}.
Arguments UseAfterFree {A}.

(** Sequencing: the first call that does not return ends the function. *)
#[global] Instance outcome_ret : MRet outcome := fun A a => Returns a.

#[global] Instance outcome_bind : MBind outcome := fun A B k m =>
  match m with
  | Returns a => k a
  | Throws => Throws
  | InvariantFailed => InvariantFailed
  | OutOfRange => OutOfRange
  | UseAfterFree => UseAfterFree
  end.

(** [invariant(b)]. *)
Definition invariant (b : bool) : outcome unit :=
  if b then Returns tt else InvariantFailed.

(* ===================================================================== *)
(** ** BSON values *)
(* ===================================================================== *)

(** The BSON library is outside the two files; its values are modelled by
    the element types the files read and write.  An object is the ordered
    sequence of its named elements, an array the sequence of its items, a
    string its text, all of its characters: a BSON string carries its
    length and may hold NUL characters.  The accessors that return a
    [std::string] give the whole text; those that return a [const char*]
    give a C string, which ends at the first NUL.  [EOO] is the element a
    lookup of an absent field gives. *)
Inductive BSONElement : Type :=
| EOO
| BString (s : string)
| BObject (fields : list (string * BSONElement))
| BArray (items : list BSONElement)
| BBool (b : bool)
| BNumberInt (n : Z)
| BNumberLong (n : Z)
| BNull.

Definition BSONObj : Type := list (string * BSONElement).

(** [obj[name]]: the first element of that name, [EOO] when there is none. *)
Fixpoint getField (obj : BSONObj) (name : string) : BSONElement :=
  match obj with
  | [] => EOO
  | (n, e) :: rest => if String.eqb n name then e else getField rest name
  end.

(** An array read as an object: item [i] is the field named by the decimal
    numeral of [i]. *)
Definition arrayFields (items : list BSONElement) : BSONObj :=
  imap (fun i e => (pretty (N.of_nat i), e)) items.

Definition isABSONObj (e : BSONElement) : bool :=
  match e with
  | BObject _ | BArray _ => true
  | _ => false
  end.

(** What a [const char*] to the text [s] denotes: the characters before
    the first NUL. *)
Fixpoint c_str (s : string) : string :=
  match s with
  | EmptyString => EmptyString
  | String c s' =>
      if Ascii.eqb c Ascii.zero then EmptyString else String c (c_str s')
  end.

(** The text holds a NUL character. *)
Fixpoint hasNul (s : string) : bool :=
  match s with
  | EmptyString => false
  | String c s' => Ascii.eqb c Ascii.zero || hasNul s'
  end.

(** [e.valuestrsafe()], a [const char*]: the C string of a String element,
    the empty string of any other. *)
Definition valuestrsafe (e : BSONElement) : string :=
  match e with
  | BString s => c_str s
  | _ => EmptyString
  end.

(** [e.String()]: throws unless the element is a String. *)
Definition String_ (e : BSONElement) : outcome string :=
  match e with
  | BString s => Returns s
  | _ => Throws
  end.

(** [e.Obj()]: the embedded object of an Object or Array element. *)
Definition Obj (e : BSONElement) : outcome BSONObj :=
  match e with
  | BObject o => Returns o
  | BArray items => Returns (arrayFields items)
  | _ => Throws
  end.

(** [e.Array()]: the items of an Array element. *)
Definition Array (e : BSONElement) : outcome (list BSONElement) :=
  match e with
  | BArray items => Returns items
  | _ => Throws
  end.

(** [e.Int()]: throws unless the element is a NumberInt. *)
Definition Int (e : BSONElement) : outcome Z :=
  match e with
  | BNumberInt n => Returns n
  | _ => Throws
  end.

(** [e.trueValue()]: numbers are true when non-zero, a Bool is its value,
    a missing or null element is false, every other element is true. *)
Definition trueValue (e : BSONElement) : bool :=
  match e with
  | BNumberLong n => negb (n =? 0)
  | BNumberInt n => negb (n =? 0)
  | BBool b => b
  | EOO | BNull => false
  | _ => true
  end.

(** [BSONObjBuilder]: appends go to the end of the object under
    construction. *)
Definition BSONObjBuilder : Type := BSONObj.

Definition append (b : BSONObjBuilder) (name : string) (e : BSONElement)
  : BSONObjBuilder := b ++ [(name, e)].

(** [BSONArrayBuilder]: each [subobjStart() ... done()] adds one item. *)
Definition BSONArrayBuilder : Type := list BSONElement.

Definition appendSubobj (arr : BSONArrayBuilder) (sub : BSONObjBuilder)
  : BSONArrayBuilder := arr ++ [BObject sub].

(* ===================================================================== *)
(** ** Disk locations *)
(* ===================================================================== *)

(** [DiskLoc(a, ofs)] with its accessors [a()] and [getOfs()]; both parts
    are C [int]s, which the code only copies. *)
Record DiskLoc : Type := mkDiskLoc { a : Z; getOfs : Z }.

#[global] Instance DiskLoc_eq_dec : EqDecision DiskLoc.
Proof. solve_decision. Defined.

#[global] Instance DiskLoc_countable : Countable DiskLoc.
Proof.
  apply (inj_countable' (fun l => (a l, getOfs l))
                        (fun p => mkDiskLoc (fst p) (snd p))).
  by intros [].
Defined.

(* ===================================================================== *)
(** ** rocks_collection_catalog_entry.cpp *)
(* ===================================================================== *)

Module Catalog.

(** One index of the collection: [IndexMetaData(spec, ready, head, multikey)]. *)
Record IndexMetaData : Type := mkIndexMetaData {
  spec : BSONObj;
  ready : bool;
  head : DiskLoc;
  multikey : bool
}.

(** The metadata of a collection: its namespace and its indexes, in order. *)
Record MetaData : Type := mkMetaData {
  ns : string;
  indexes : list IndexMetaData
}.

(** A default-constructed [MetaData md;]. *)
Definition MetaData_new : MetaData := mkMetaData EmptyString [].

(** The body of the [for] loop of [toBSON]: one sub-object per index. *)
Definition indexToBSON (imd : IndexMetaData) : BSONObjBuilder :=
  let sub : BSONObjBuilder := [] in
  let sub := append sub "spec" (BObject (spec imd)) in
  let sub := append sub "ready" (BBool (ready imd)) in
  let sub := append sub "multikey" (BBool (multikey imd)) in
  let sub := append sub "head_a" (BNumberInt (a (head imd))) in
  let sub := append sub "head_b" (BNumberInt (getOfs (head imd))) in
  sub.

(** The [for] loop of [toBSON] over [indexes[i]], [i = 0 .. size-1]. *)
Fixpoint toBSON_loop (arr : BSONArrayBuilder) (rest : list IndexMetaData)
  : BSONArrayBuilder :=
  match rest with
  | [] => arr
  | imd :: rest' => toBSON_loop (appendSubobj arr (indexToBSON imd)) rest'
  end.

(** [MetaData::toBSON]. *)
Definition toBSON (md : MetaData) : BSONObj :=
  let b : BSONObjBuilder := [] in
  let b := append b "ns" (BString (ns md)) in
  let arr := toBSON_loop [] (indexes md) in
  let b := append b "indexes" (BArray arr) in
  b.

(** The [for] loop of [parse]: each entry is read and pushed on the back of
    [indexes]. *)
Fixpoint parse_loop (entries : list BSONElement) (indexes : list IndexMetaData)
  : outcome (list IndexMetaData) :=
  match entries with
  | [] => Returns indexes
  | e :: entries' =>
      idx ← Obj e;
      imd_spec ← Obj (getField idx "spec");
      let imd_ready := trueValue (getField idx "ready") in
      head_a ← Int (getField idx "head_a");
      head_b ← Int (getField idx "head_b");
      let imd_multikey := trueValue (getField idx "multikey") in
      parse_loop entries'
        (indexes ++ [mkIndexMetaData imd_spec imd_ready
                       (mkDiskLoc head_a head_b) imd_multikey])
  end.

(** [MetaData::parse], a method: [this] is the value parsed into.  [ns] is
    overwritten with the C string [valuestrsafe()] returns, copied into the
    [std::string]; the entries read are appended to the indexes already
    there. *)
Definition parse (this : MetaData) (obj : BSONObj) : outcome MetaData :=
  let ns' := valuestrsafe (getField obj "ns") in
  let e := getField obj "indexes" in
  if isABSONObj e then
    entries ← Array e;
    indexes' ← parse_loop entries (indexes this);
    Returns (mkMetaData ns' indexes')
  else Returns (mkMetaData ns' (indexes this)).

(** The conversion of the [unsigned] loop counter to the [int] result. *)
Definition to_int (u : Z) : Z := (u + 2 ^ 31) mod 2 ^ 32 - 2 ^ 31.

(** The [for] loop of [findIndexOffset], from position [i]: the position of
    the first index whose spec is named [name], [-1] when there is none.
    (The counter itself does not wrap: a vector has fewer than [2^32]
    entries.) *)
Fixpoint findIndexOffset_from (i : Z) (rest : list IndexMetaData)
    (name : string) : outcome Z :=
  match rest with
  | [] => Returns (-1)
  | imd :: rest' =>
      n ← String_ (getField (spec imd) "name");
      if String.eqb n name then Returns (to_int i)
      else findIndexOffset_from (i + 1) rest' name
  end.

(** [MetaData::findIndexOffset]. *)
Definition findIndexOffset (md : MetaData) (name : string) : outcome Z :=
  findIndexOffset_from 0 (indexes md) name.

(** [md.indexes[offset]] for an [int] offset. *)
Definition index_at (md : MetaData) (offset : Z) : outcome IndexMetaData :=
  if offset <? 0 then OutOfRange
  else match indexes md !! Z.to_nat offset with
       | Some imd => Returns imd
       | None => OutOfRange
       end.

(** [md.indexes[offset] = imd]. *)
Definition set_index_at (md : MetaData) (offset : Z) (imd : IndexMetaData)
  : MetaData :=
  mkMetaData (ns md) (<[Z.to_nat offset := imd]> (indexes md)).

(** The key-value store of the engine: what [Get] finds under each key, and
    the [Put] calls made so far, oldest first.  A BSON object is stored as
    it is (its bytes are the object). *)
Record RocksEngine : Type := mkRocksEngine {
  db : gmap string BSONObj;
  puts : list (string * BSONObj)
}.

Definition db_Get (eng : RocksEngine) (key : string) : option BSONObj :=
  db eng !! key.

Definition db_Put (eng : RocksEngine) (key : string) (value : BSONObj)
  : RocksEngine :=
  mkRocksEngine (<[key := value]> (db eng)) (puts eng ++ [(key, value)]).

(** The catalog entry of one collection. *)
Record RocksCollectionCatalogEntry : Type := mkEntry {
  entry_ns : string;
  _metaDataKey : string
}.

(** The constructor: the metadata lives under ["metadata-" + ns]. *)
Definition RocksCollectionCatalogEntry_new (ns : string)
  : RocksCollectionCatalogEntry :=
  mkEntry ns ("metadata-" +:+ ns).

(** *** The memory behind the specs

    A C++ [BSONObj] is a pointer to the bytes of an object, which it may
    or may not own.  [_getMetaData_inlock] reads the stored bytes into its
    local [string result] and wraps them in a [BSONObj] that does not own
    them ([BSONObj obj( result.c_str() )]); [parse] stores in each entry
    [idx["spec"].Obj()], again a pointer into those bytes, with no
    [getOwned()].  When [_getMetaData_inlock] returns, [result] is
    destroyed, and the [spec] of every entry [parse] appended points to
    destroyed memory.  The other fields ([ns], [ready], [head],
    [multikey]) are copied and stay good.

    A [MetaData] object in the hands of a method is therefore its value
    and the positions of the entries whose [spec] points to destroyed
    memory.  The functions on values above ([toBSON], [parse],
    [findIndexOffset]) say what the code computes from specs that are
    intact; the functions on objects below are the same loops, with each
    read of a spec looked up in memory. *)
Record MetaDataObj : Type := mkMetaDataObj {
  value : MetaData;
  destroyed : gset nat
}.

Coercion value : MetaDataObj >-> MetaData.

(** A read of the bytes behind [md.indexes[i].spec]. *)
Definition read_spec (md : MetaDataObj) (i : nat) : outcome unit :=
  if bool_decide (i ∈ destroyed md) then UseAfterFree else Returns tt.

(** [md.findIndexOffset( name )] on an object: the loop of
    [findIndexOffset], which reads [indexes[i].spec["name"]] at each
    position it visits. *)
Fixpoint findIndexOffset_obj_from (md : MetaDataObj) (i : Z)
    (rest : list IndexMetaData) (name : string) : outcome Z :=
  match rest with
  | [] => Returns (-1)
  | imd :: rest' =>
      _ ← read_spec md (Z.to_nat i);
      n ← String_ (getField (spec imd) "name");
      if String.eqb n name then Returns (to_int i)
      else findIndexOffset_obj_from md (i + 1) rest' name
  end.

Definition findIndexOffset_obj (md : MetaDataObj) (name : string)
  : outcome Z :=
  findIndexOffset_obj_from md 0 (indexes md) name.

(** [md.toBSON()] on an object: the loop of [toBSON], where
    [sub.append( "spec", indexes[i].spec )] copies the bytes of the spec
    of each entry. *)
Fixpoint toBSON_obj_loop (md : MetaDataObj) (i : nat) (arr : BSONArrayBuilder)
    (rest : list IndexMetaData) : outcome BSONArrayBuilder :=
  match rest with
  | [] => Returns arr
  | imd :: rest' =>
      _ ← read_spec md i;
      toBSON_obj_loop md (S i) (appendSubobj arr (indexToBSON imd)) rest'
  end.

Definition toBSON_obj (md : MetaDataObj) : outcome BSONObj :=
  let b : BSONObjBuilder := [] in
  let b := append b "ns" (BString (ns md)) in
  arr ← toBSON_obj_loop md 0 [] (indexes md);
  let b := append b "indexes" (BArray arr) in
  Returns b.

(** [md.indexes[offset] = imd] on an object: the entry is replaced, what
    its spec points to is not touched. *)
Definition set_index_at_obj (md : MetaDataObj) (offset : Z)
    (imd : IndexMetaData) : MetaDataObj :=
  mkMetaDataObj (set_index_at md offset imd) (destroyed md).

(** [md.indexes.push_back( imd )] on an object, for an entry whose spec is
    intact. *)
Definition push_back_obj (md : MetaDataObj) (imd : IndexMetaData)
  : MetaDataObj :=
  mkMetaDataObj (mkMetaData (ns md) (indexes md ++ [imd])) (destroyed md).

(** *** The methods of the catalog entry *)

(** [_getMetaData_inlock(out)]: the stored bytes are read into the local
    [result] and parsed into [out] (in the file always a fresh
    [MetaData md;]; the specs of entries [out] came with count as intact).
    At the return [result] is destroyed: the specs of the entries [parse]
    appended, at the positions from the old size of [out->indexes] on,
    point to destroyed memory. *)
Definition _getMetaData_inlock (this : RocksCollectionCatalogEntry)
    (eng : RocksEngine) (out : MetaData) : outcome MetaDataObj :=
  match db_Get eng (_metaDataKey this) with
  | None => InvariantFailed
  | Some result =>
      md ← parse out result;
      let first := length (indexes out) in
      let appended := (length (indexes md) - first)%nat in
      Returns (mkMetaDataObj md (list_to_set (seq first appended)))
  end.

(** [_putMetaData_inlock(in)]: the object is serialised and put under the
    metadata key. *)
Definition _putMetaData_inlock (this : RocksCollectionCatalogEntry)
    (eng : RocksEngine) (md : MetaDataObj) : outcome RocksEngine :=
  obj ← toBSON_obj md;
  Returns (db_Put eng (_metaDataKey this) obj).

(** [isIndexMultikey]. *)
Definition isIndexMultikey (this : RocksCollectionCatalogEntry)
    (eng : RocksEngine) (indexName : string) : outcome bool :=
  md ← _getMetaData_inlock this eng MetaData_new;
  offset ← findIndexOffset_obj md indexName;
  _ ← invariant (0 <=? offset);
  imd ← index_at (value md) offset;
  Returns (multikey imd).

(** [setIndexIsMultikey]: the result and the engine afterwards. *)
Definition setIndexIsMultikey (this : RocksCollectionCatalogEntry)
    (eng : RocksEngine) (indexName : string) (mk : bool)
  : outcome (bool * RocksEngine) :=
  md ← _getMetaData_inlock this eng MetaData_new;
  offset ← findIndexOffset_obj md indexName;
  _ ← invariant (0 <=? offset);
  imd ← index_at (value md) offset;
  if Bool.eqb (multikey imd) mk then Returns (false, eng)
  else
    let md := set_index_at_obj md offset
                (mkIndexMetaData (spec imd) (ready imd) (head imd) mk) in
    eng' ← _putMetaData_inlock this eng md;
    Returns (true, eng').

(** [Delete] of the engine: the key is gone afterwards. *)
Definition db_Delete (eng : RocksEngine) (key : string) : RocksEngine :=
  mkRocksEngine (delete key (db eng)) (puts eng).

(** [_getMetaData(out)]: [_getMetaData_inlock] under the lock. *)
Definition _getMetaData (this : RocksCollectionCatalogEntry)
    (eng : RocksEngine) (out : MetaData) : outcome MetaDataObj :=
  _getMetaData_inlock this eng out.

(** [getTotalIndexCount]: the size of the vector, cast to [int]. *)
Definition getTotalIndexCount (this : RocksCollectionCatalogEntry)
    (eng : RocksEngine) : outcome Z :=
  md ← _getMetaData this eng MetaData_new;
  Returns (to_int (Z.of_nat (length (indexes (value md))))).

(** The [for] loop of [getCompletedIndexCount], with the count so far. *)
Fixpoint completed_loop (rest : list IndexMetaData) (num : Z) : Z :=
  match rest with
  | [] => num
  | imd :: rest' => completed_loop rest' (if ready imd then num + 1 else num)
  end.

(** [getCompletedIndexCount].  (The [int] count is at most the size of
    the vector, so it does not overflow.) *)
Definition getCompletedIndexCount (this : RocksCollectionCatalogEntry)
    (eng : RocksEngine) : outcome Z :=
  md ← _getMetaData this eng MetaData_new;
  Returns (completed_loop (indexes (value md)) 0).

(** [getMaxAllowedIndexes]. *)
Definition getMaxAllowedIndexes : Z := 64.

(** The [for] loop of [getAllIndexes] from position [i]: the spec of each
    entry is read for its name, which is pushed on the back of [names]. *)
Fixpoint getAllIndexes_loop (md : MetaDataObj) (i : nat)
    (rest : list IndexMetaData) (names : list string)
  : outcome (list string) :=
  match rest with
  | [] => Returns names
  | imd :: rest' =>
      _ ← read_spec md i;
      n ← String_ (getField (spec imd) "name");
      getAllIndexes_loop md (S i) rest' (names ++ [n])
  end.

(** [getAllIndexes(names)]: the vector [names] afterwards. *)
Definition getAllIndexes (this : RocksCollectionCatalogEntry)
    (eng : RocksEngine) (names : list string) : outcome (list string) :=
  md ← _getMetaData this eng MetaData_new;
  getAllIndexes_loop md 0 (indexes md) names.

(** [getIndexSpec]: [getOwned()] copies the bytes of the spec found. *)
Definition getIndexSpec (this : RocksCollectionCatalogEntry)
    (eng : RocksEngine) (indexName : string) : outcome BSONObj :=
  md ← _getMetaData this eng MetaData_new;
  offset ← findIndexOffset_obj md indexName;
  _ ← invariant (0 <=? offset);
  imd ← index_at (value md) offset;
  _ ← read_spec md (Z.to_nat offset);
  Returns (spec imd).

(** [getIndexHead]. *)
Definition getIndexHead (this : RocksCollectionCatalogEntry)
    (eng : RocksEngine) (indexName : string) : outcome DiskLoc :=
  md ← _getMetaData this eng MetaData_new;
  offset ← findIndexOffset_obj md indexName;
  _ ← invariant (0 <=? offset);
  imd ← index_at (value md) offset;
  Returns (head imd).

(** [isIndexReady]. *)
Definition isIndexReady (this : RocksCollectionCatalogEntry)
    (eng : RocksEngine) (indexName : string) : outcome bool :=
  md ← _getMetaData this eng MetaData_new;
  offset ← findIndexOffset_obj md indexName;
  _ ← invariant (0 <=? offset);
  imd ← index_at (value md) offset;
  Returns (ready imd).

(** [setIndexHead]: the engine afterwards. *)
Definition setIndexHead (this : RocksCollectionCatalogEntry)
    (eng : RocksEngine) (indexName : string) (newHead : DiskLoc)
  : outcome RocksEngine :=
  md ← _getMetaData_inlock this eng MetaData_new;
  offset ← findIndexOffset_obj md indexName;
  _ ← invariant (0 <=? offset);
  imd ← index_at (value md) offset;
  let md := set_index_at_obj md offset
              (mkIndexMetaData (spec imd) (ready imd) newHead (multikey imd)) in
  _putMetaData_inlock this eng md.

(** [indexBuildSuccess]: the engine afterwards. *)
Definition indexBuildSuccess (this : RocksCollectionCatalogEntry)
    (eng : RocksEngine) (indexName : string) : outcome RocksEngine :=
  md ← _getMetaData_inlock this eng MetaData_new;
  offset ← findIndexOffset_obj md indexName;
  _ ← invariant (0 <=? offset);
  imd ← index_at (value md) offset;
  let md := set_index_at_obj md offset
              (mkIndexMetaData (spec imd) true (head imd) (multikey imd)) in
  _putMetaData_inlock this eng md.

(** [removeIndex] and [updateTTLSetting]: not supported, the invariant
    [!"..."] fails. *)
Definition removeIndex (this : RocksCollectionCatalogEntry)
    (eng : RocksEngine) (indexName : string) : outcome RocksEngine :=
  _ ← invariant false;
  Returns eng.

Definition updateTTLSetting (this : RocksCollectionCatalogEntry)
    (eng : RocksEngine) (indexName : string) (newExpireSeconds : Z)
  : outcome RocksEngine :=
  _ ← invariant false;
  Returns eng.

(** [prepareForIndexBuild]: a new entry for the index of [infoObj] (the
    descriptor's object, intact), not ready, not multikey, its head the
    default-constructed [DiskLoc()], which is [nullLoc] here (its two
    parts are set outside the file). *)
Definition prepareForIndexBuild (this : RocksCollectionCatalogEntry)
    (eng : RocksEngine) (infoObj : BSONObj) (nullLoc : DiskLoc)
  : outcome RocksEngine :=
  md ← _getMetaData_inlock this eng MetaData_new;
  let md := push_back_obj md (mkIndexMetaData infoObj false nullLoc false) in
  _putMetaData_inlock this eng md.

(** [createMetaData]: the key must be free; the metadata written has the
    namespace of the entry and no index (so its [toBSON] reads no
    spec). *)
Definition createMetaData (this : RocksCollectionCatalogEntry)
    (eng : RocksEngine) : outcome RocksEngine :=
  _ ← invariant (bool_decide (db_Get eng (_metaDataKey this) = None));
  let md := mkMetaData (entry_ns this) (indexes MetaData_new) in
  Returns (db_Put eng (_metaDataKey this) (toBSON md)).

(** [dropMetaData]. *)
Definition dropMetaData (this : RocksCollectionCatalogEntry)
    (eng : RocksEngine) : RocksEngine :=
  db_Delete eng (_metaDataKey this).

(** The name an index goes by: the string under ["name"] in its spec. *)
Definition isNamed (name : string) (imd : IndexMetaData) : Prop :=
  getField (spec imd) "name" = BString name.

(** An index whose spec has a string under ["name"], another one. *)
Definition namedOtherwise (name : string) (imd : IndexMetaData) : Prop :=
  exists n, getField (spec imd) "name" = BString n /\ n <> name.

(** The number of ready indexes. *)
Definition readyCount (l : list IndexMetaData) : Z :=
  Z.of_nat (length (List.filter ready l)).

End Catalog.

(* ===================================================================== *)
(** ** btree_based_bulk_access_method.cpp *)
(* ===================================================================== *)

Module Bulk.

(** The error codes the file names; [OtherError] stands for every other
    code of the enumeration. *)
Inductive ErrorCodes : Type :=
| OK
| InternalError
| DuplicateKey
| OtherError (n : Z).

Record Status : Type := mkStatus { code : ErrorCodes; reason : string }.

(** [Status::OK()]. *)
Definition Status_OK : Status := mkStatus OK EmptyString.

Definition isOK (st : Status) : bool :=
  match code st with
  | OK => true
  | _ => false
  end.

(** [ErrorCodes::DuplicateKey != c]. *)
Definition notDuplicateKey (c : ErrorCodes) : bool :=
  match c with
  | DuplicateKey => false
  | _ => true
  end.

(** [BtreeExternalSortComparison::Data], also [BSONObjExternalSorter::Data]:
    a key and the location of the document it comes from. *)
Definition Data : Type := BSONObj * DiskLoc.

(** What the code reads of an [IndexDescriptor]. *)
Record IndexDescriptor : Type := mkIndexDescriptor {
  keyPattern : BSONObj;
  version : Z;
  unique : bool;
  dropDups : bool
}.

(** [static const size_t kMaxDupsToStore = 1000000]. *)
Definition kMaxDupsToStore : Z := 1000000.

(** The conversion to [int64_t] of [*numInserted += keys.size()]. *)
Definition to_int64 (z : Z) : Z := (z + 2 ^ 63) mod 2 ^ 64 - 2 ^ 63.

(** The calls [commit] makes on its collaborators, in the order made. *)
Inductive Event : Type :=
| EvSetMultikey                      (* _real->_btreeState->setMultikey *)
| EvSorterDone                       (* _sorter->done() *)
| EvSetMessage (msg : string)        (* getCurOp()->setMessage *)
| EvGetBulkBuilder (dupsAllowed : bool)
| EvNext (d : Data)                  (* i->next() *)
| EvAddKey (d : Data)                (* builder->addKey *)
| EvHit                              (* pm.hit() *)
| EvFinished                         (* pm.finished() *)
| EvLog (msg : string)               (* LOG(...) << ... *)
| EvBuilderCommit (mayInterrupt : bool)
| EvWarning.                         (* warning() << ... *)

(** *** Collaborators that are declared outside the file *)

(** [Ordering], [Ordering::make], the two key comparisons and
    [DiskLoc::compare]; the three comparisons return a C [int]. *)
Class Comparisons : Type := {
  Ordering : Type;
  Ordering_make : BSONObj -> Ordering;
  woCompare : BSONObj -> BSONObj -> Ordering -> bool -> Z;
  oldCompare : BSONObj -> BSONObj -> Ordering -> Z;
  DiskLoc_compare : DiskLoc -> DiskLoc -> Z
}.

(** [_real->getKeys(obj, &keys)] (the keys of a document, as the set
    iterates them), [shouldIgnoreUniqueIndex] of the replication
    coordinator, and the global [inDBRepair]. *)
Class Environment : Type := {
  getKeys : BSONObj -> list BSONObj;
  shouldIgnoreUniqueIndex : IndexDescriptor -> bool;
  inDBRepair : bool
}.

(** The bulk builder behind [BtreeBuilderInterface]: its state, how
    [getBulkBuilder] makes one for a value of [dupsAllowed], [addKey] and
    [commit], which returns the number of keys committed. *)
Class BuilderInterface : Type := {
  Builder : Type;
  getBulkBuilder : bool -> Builder;
  addKey : Builder -> BSONObj -> DiskLoc -> Status * Builder;
  builder_commit : Builder -> bool -> Z * Builder
}.

Section BulkBuild.
Context {cmps : Comparisons} {env : Environment} {bi : BuilderInterface}.

(** *** The comparator *)

Record BtreeExternalSortComparison : Type := mkComparison {
  _ordering : Ordering;
  _version : Z
}.

(** The constructor, with its invariant on the version. *)
Definition BtreeExternalSortComparison_new (ordering : BSONObj)
    (version : Z) : outcome BtreeExternalSortComparison :=
  _ ← invariant ((version =? 1) || (version =? 0));
  Returns (mkComparison (Ordering_make ordering) version).

(** The key comparison [operator()] selects. *)
Definition keyCompare (c : BtreeExternalSortComparison) (l r : BSONObj) : Z :=
  if _version c =? 1
  then woCompare l r (_ordering c) false
  else oldCompare l r (_ordering c).

(** [operator()]. *)
Definition compare (c : BtreeExternalSortComparison) (l r : Data) : Z :=
  let x := keyCompare c l.1 r.1 in
  if negb (x =? 0) then x
  else DiskLoc_compare l.2 r.2.

(** [l] does not come after [r]: the comparator does not say greater. *)
Definition notAfter (c : BtreeExternalSortComparison) (l r : Data) : Prop :=
  compare c l r <= 0.

#[global] Instance notAfter_dec c l r : Decision (notAfter c l r).
Proof. unfold notAfter. apply _. Defined.

(** Modelled from the spec: the external sorter
    ([mongo/db/sorter/sorter.cpp], included by the file but not part of
    it) "on completion exposes one externally-merged ascending iterator
    over all pairs", ordered by the comparator it was made with.  [done]
    is a stable merge sort of the pairs added. *)
Definition sorter_done (c : BtreeExternalSortComparison)
    (added : list Data) : list Data :=
  merge_sort (notAfter c) added.

(** *** The access method *)

(** The counters are 64-bit; a build stays far below [2^63] keys, so they
    count exactly. *)
Record BtreeBasedBulkAccessMethod : Type := mkBulk {
  _real : IndexDescriptor;   (* _real->_btreeState->descriptor() *)
  _sorterComparison : BtreeExternalSortComparison;
  _sorter : list Data;       (* the pairs given to _sorter->add *)
  _docsInserted : Z;
  _keysInserted : Z;
  _isMultiKey : bool
}.

(** The constructor: [real] is the descriptor behind [_real], [descriptor]
    the one the comparator of the sorter is made from.  (The sorter's
    options, temporary directory and memory ceiling, do not change what
    its iterator yields.) *)
Definition BtreeBasedBulkAccessMethod_new (real descriptor : IndexDescriptor)
  : outcome BtreeBasedBulkAccessMethod :=
  c ← BtreeExternalSortComparison_new (keyPattern descriptor)
        (version descriptor);
  Returns (mkBulk real c [] 0 0 false).

(** The [for] loop of [insert] over the keys of one document. *)
Fixpoint insert_loop (keys : list BSONObj) (loc : DiskLoc)
    (this : BtreeBasedBulkAccessMethod) : BtreeBasedBulkAccessMethod :=
  match keys with
  | [] => this
  | k :: keys' =>
      insert_loop keys' loc
        (mkBulk (_real this) (_sorterComparison this)
           (_sorter this ++ [(k, loc)])
           (_docsInserted this) (_keysInserted this + 1)
           (_isMultiKey this))
  end.

(** [insert]; [numInserted] is [None] for a null pointer. *)
Definition insert (this : BtreeBasedBulkAccessMethod) (obj : BSONObj)
    (loc : DiskLoc) (numInserted : option Z)
  : Status * BtreeBasedBulkAccessMethod * option Z :=
  let keys := getKeys obj in
  let this := mkBulk (_real this) (_sorterComparison this) (_sorter this)
                (_docsInserted this) (_keysInserted this)
                (_isMultiKey this || (1 <? Z.of_nat (length keys))) in
  let this := insert_loop keys loc this in
  let this := mkBulk (_real this) (_sorterComparison this) (_sorter this)
                (_docsInserted this + 1) (_keysInserted this)
                (_isMultiKey this) in
  (Status_OK, this,
   (fun n => to_int64 (n + Z.of_nat (length keys))) <$> numInserted).

(** A run of [insert] calls, one per document, oldest first. *)
Definition insert_all (docs : list (BSONObj * DiskLoc))
    (this : BtreeBasedBulkAccessMethod) : BtreeBasedBulkAccessMethod :=
  fold_left (fun this doc => (insert this doc.1 doc.2 None).1.2) docs this.

(** *** [commit] *)

(** How one pass of the [while] loop ends: it reaches the end of the
    body, or [commit] returns from inside it. *)
Inductive LoopResult : Type :=
| Continues (builder : Builder) (dupsToDrop : gset DiskLoc)
| Returned (status : Status) (builder : Builder) (dupsToDrop : gset DiskLoc).

(** The body of the [while] loop for the entry [d]. *)
Definition commitStep (dupsAllowed dropDups : bool) (d : Data)
    (builder : Builder) (dupsToDrop : gset DiskLoc)
  : list Event * LoopResult :=
  let '(status, builder) := addKey builder d.1 d.2 in
  let called := [EvNext d; EvAddKey d] in
  if negb (isOK status) then
    if notDuplicateKey (code status) then
      (called, Returned status builder dupsToDrop)
    else if dropDups then
      let dupsToDrop := {[ d.2 ]} ∪ dupsToDrop in
      if kMaxDupsToStore <? Z.of_nat (size dupsToDrop) then
        (called,
         Returned (mkStatus InternalError
                     "Too many dups on index build with dropDups = true")
                  builder dupsToDrop)
      else (called ++ [EvHit], Continues builder dupsToDrop)
    else if negb dupsAllowed then
      (called, Returned status builder dupsToDrop)
    else (called ++ [EvHit], Continues builder dupsToDrop)
  else (called ++ [EvHit], Continues builder dupsToDrop).

(** The [while (i->more())] loop over the entries still to come. *)
Fixpoint commitLoop (dupsAllowed dropDups : bool) (i : list Data)
    (builder : Builder) (dupsToDrop : gset DiskLoc)
  : list Event * LoopResult :=
  match i with
  | [] => ([], Continues builder dupsToDrop)
  | d :: i' =>
      match commitStep dupsAllowed dropDups d builder dupsToDrop with
      | (evs, Continues builder' dupsToDrop') =>
          let '(evs', r) :=
            commitLoop dupsAllowed dropDups i' builder' dupsToDrop' in
          (evs ++ evs', r)
      | (evs, Returned status builder' dupsToDrop') =>
          (evs, Returned status builder' dupsToDrop')
      end
  end.

(** [dupsAllowed] and [dropDups] as [commit] computes them. *)
Definition dupsAllowed_of (descriptor : IndexDescriptor) : bool :=
  negb (unique descriptor) || shouldIgnoreUniqueIndex descriptor.

Definition dropDups_of (descriptor : IndexDescriptor) : bool :=
  dropDups descriptor || inDBRepair.

(** What [commit] leaves: the status returned, the caller's set, the
    builder (the structure built) and the calls made. *)
Record CommitResult : Type := mkCommitResult {
  cr_status : Status;
  cr_dupsToDrop : gset DiskLoc;
  cr_builder : Builder;
  cr_trace : list Event
}.

(** The calls before the loop. *)
Definition commit_prologue (this : BtreeBasedBulkAccessMethod)
  : list Event :=
  (if _isMultiKey this then [EvSetMultikey] else [])
  ++ [EvSorterDone;
      EvSetMessage "Index Bulk Build: (2/3) btree bottom up";
      EvGetBulkBuilder (dupsAllowed_of (_real this))].

(** The calls after the loop, for the count [keysCommit] the builder
    reports. *)
Definition commit_epilogue (this : BtreeBasedBulkAccessMethod)
    (mayInterrupt : bool) (keysCommit : Z) : list Event :=
  [EvFinished;
   EvSetMessage "Index Bulk Build: (3/3) btree-middle";
   EvLog "done building bottom layer, going to commit";
   EvBuilderCommit mayInterrupt]
  ++ (if negb (dropDups_of (_real this))
         && negb (keysCommit =? _keysInserted this)
      then [EvWarning] else []).

(** [commit]. *)
Definition commit (this : BtreeBasedBulkAccessMethod)
    (dupsToDrop : gset DiskLoc) (mayInterrupt : bool) : CommitResult :=
  let dupsAllowed := dupsAllowed_of (_real this) in
  let dropDups := dropDups_of (_real this) in
  let i := sorter_done (_sorterComparison this) (_sorter this) in
  let builder := getBulkBuilder dupsAllowed in
  match commitLoop dupsAllowed dropDups i builder dupsToDrop with
  | (evs, Returned status builder dupsToDrop) =>
      mkCommitResult status dupsToDrop builder (commit_prologue this ++ evs)
  | (evs, Continues builder dupsToDrop) =>
      let '(keysCommit, builder) := builder_commit builder mayInterrupt in
      mkCommitResult Status_OK dupsToDrop builder
        (commit_prologue this ++ evs
         ++ commit_epilogue this mayInterrupt keysCommit)
  end.

End BulkBuild.

(** *** The ordering contract *)

(** A three-way comparison, as a C comparison routine is one: exchanging
    the arguments exchanges "less" and "greater", and "not greater" is
    transitive. *)
Class ThreeWay {A : Type} (cmp : A -> A -> Z) : Prop := {
  threeWay_swap : forall x y, cmp x y < 0 <-> 0 < cmp y x;
  threeWay_trans : forall x y z, cmp x y <= 0 -> cmp y z <= 0 -> cmp x z <= 0
}.

(** What the comparator takes for granted of the routines it calls: both
    key comparisons are three-way comparisons for every ordering, and so
    is the comparison of locations, which says "equal" of a location and
    itself only. *)
Class OrderingContract (cmps : Comparisons) : Prop := {
  woCompare_threeWay :
    forall o, ThreeWay (fun l r => woCompare l r o false);
  oldCompare_threeWay :
    forall o, ThreeWay (fun l r => oldCompare l r o);
  DiskLoc_compare_threeWay : ThreeWay DiskLoc_compare;
  DiskLoc_compare_eq : forall l r, DiskLoc_compare l r = 0 -> l = r
}.

(** [l] comes before [r]: the comparator says less. *)
Definition before {cmps : Comparisons} (c : BtreeExternalSortComparison)
    (l r : Data) : Prop :=
  compare c l r < 0.

(** *** Reading a trace *)

(** The calls of one pass of the loop that reaches the end of the body. *)
Definition passCalls (d : Data) : list Event := [EvNext d; EvAddKey d; EvHit].

Definition isHit (e : Event) : bool :=
  match e with
  | EvHit => true
  | _ => false
  end.

Definition isFinished (e : Event) : bool :=
  match e with
  | EvFinished => true
  | _ => false
  end.

Definition isNext (e : Event) : bool :=
  match e with
  | EvNext _ => true
  | _ => false
  end.

(** How often [hit], [finished] and [next] were called. *)
Definition countHit (tr : list Event) : nat := length (List.filter isHit tr).
Definition countFinished (tr : list Event) : nat :=
  length (List.filter isFinished tr).
Definition countNext (tr : list Event) : nat := length (List.filter isNext tr).

(** The status [commit] returns when the set of duplicates is too large. *)
Definition tooManyDups : Status :=
  mkStatus InternalError "Too many dups on index build with dropDups = true".

(** *** The bulk builder, from the spec *)

Section SpecBuilder.
(** When two keys collide, and which keys the structure rejects for
    their size. *)
Variable sameKey : BSONObj -> BSONObj -> bool.
Variable tooLarge : BSONObj -> bool.

(** Modelled from the spec: the bulk builder ([BtreeBuilderInterface],
    obtained from [BtreeInterface::getBulkBuilder]) is not under src/.
    By the spec, [addKey] "reports that the next key collides with an
    already-inserted key under a uniqueness constraint" and otherwise
    appends the key; a non-unique index, or one whose uniqueness the
    build ignores, accepts both keys; a key "rejected by size limits at
    the structure layer" does not abort the build and shows only in the
    committed count; [commit] returns that count.  The state is the
    flag the builder was made with and the keys appended, oldest
    first. *)
Record SpecBuilder : Type := mkSpecBuilder {
  sb_dupsAllowed : bool;
  sb_keys : list Data
}.

(** Modelled from the spec: [getBulkBuilder] of the missing builder; it
    starts from an empty structure. *)
Definition spec_getBulkBuilder (dupsAllowed : bool) : SpecBuilder :=
  mkSpecBuilder dupsAllowed [].

(** Modelled from the spec: [addKey] of the missing builder.  A key the
    structure rejects for its size is skipped without an error; under a
    uniqueness constraint a key that collides with one already in the
    structure is reported as a duplicate and not inserted; every other
    key is appended. *)
Definition spec_addKey (b : SpecBuilder) (key : BSONObj) (loc : DiskLoc)
  : Status * SpecBuilder :=
  if tooLarge key then (Status_OK, b)
  else if negb (sb_dupsAllowed b)
          && existsb (fun e => sameKey e.1 key) (sb_keys b)
  then (mkStatus DuplicateKey "duplicate key", b)
  else (Status_OK, mkSpecBuilder (sb_dupsAllowed b) (sb_keys b ++ [(key, loc)])).

(** Modelled from the spec: [commit] of the missing builder, which
    "returns a commit count": the number of keys in the structure. *)
Definition spec_builder_commit (b : SpecBuilder) (mayInterrupt : bool)
  : Z * SpecBuilder :=
  (Z.of_nat (length (sb_keys b)), b).

(** Modelled from the spec: the missing builder as a [BuilderInterface]. *)
Definition specBuilder : BuilderInterface :=
  {| Builder := SpecBuilder;
     getBulkBuilder := spec_getBulkBuilder;
     addKey := spec_addKey;
     builder_commit := spec_builder_commit |}.
End SpecBuilder.

(** The entries whose key collides with [key]: what documents that
    "produce the same key" add to the sorter. *)
Definition hasKey (sameKey : BSONObj -> BSONObj -> bool) (key : BSONObj)
    (e : Data) : Prop :=
  sameKey key e.1 = true.

#[global] Instance hasKey_dec sameKey key e : Decision (hasKey sameKey key e).
Proof. unfold hasKey. apply _. Defined.

(** *** Reading a loop result and the calls on the builder *)

(** The set of duplicates a pass of the loop leaves. *)
Definition loopDups {bi : BuilderInterface} (r : LoopResult) : gset DiskLoc :=
  match r with
  | Continues _ dupsToDrop => dupsToDrop
  | Returned _ _ dupsToDrop => dupsToDrop
  end.

(** The entries [addKey] was called with, in the order of the calls. *)
Definition addKeyCalls (tr : list Event) : list Data :=
  omap (fun e => match e with
                 | EvAddKey d => Some d
                 | _ => None
                 end) tr.

(** The pairs a document adds to the sorter: one per key, at its
    location. *)
Definition pairsOf {env : Environment} (doc : BSONObj * DiskLoc) : list Data :=
  (fun k => (k, doc.2)) <$> getKeys doc.1.

End Bulk.

(* ===================================================================== *)
(** ** Concrete values for the examples *)
(* ===================================================================== *)

Module Examples.
Import Catalog Bulk.

(** A collection [test.c] with one index, [a_1], not yet multikey. *)
Definition ex_entry : RocksCollectionCatalogEntry :=
  RocksCollectionCatalogEntry_new "test.c".

Definition ex_index : IndexMetaData :=
  mkIndexMetaData [("name", BString "a_1"); ("key", BObject [("a", BNumberInt 1)])]
    false (mkDiskLoc 0 0) false.

Definition ex_md : MetaData := mkMetaData "test.c" [ex_index].

Definition ex_engine : RocksEngine :=
  db_Put (mkRocksEngine ∅ []) (_metaDataKey ex_entry) (toBSON ex_md).

(** The sign of a comparison, as a C [int]. *)
Definition sign_of (c : comparison) : Z :=
  match c with
  | Lt => -1
  | Eq => 0
  | Gt => 1
  end.

(** A key comparison for the examples: keys are ordered by the number in
    their first element (other keys count as 0), whatever its name. *)
Definition keyRank (key : BSONObj) : Z :=
  match key with
  | (_, BNumberInt n) :: _ => n
  | _ => 0
  end.

(** A location comparison for the examples: by file, then by offset. *)
Definition ex_DiskLoc_compare (l r : DiskLoc) : Z :=
  match a l ?= a r with
  | Eq => sign_of (getOfs l ?= getOfs r)
  | c => sign_of c
  end.

Definition ex_cmps : Comparisons :=
  {| Ordering := BSONObj;
     Ordering_make := fun keyPattern => keyPattern;
     woCompare := fun l r _ _ => sign_of (keyRank l ?= keyRank r);
     oldCompare := fun l r _ => sign_of (keyRank l ?= keyRank r);
     DiskLoc_compare := ex_DiskLoc_compare |}.

(** A key extractor for the examples, for the key pattern [{a: 1}]: the
    value of field [a], one key per item when it is an array. *)
Definition ex_getKeys (obj : BSONObj) : list BSONObj :=
  match getField obj "a" with
  | BArray items => (fun v => [(EmptyString, v)]) <$> items
  | v => [[(EmptyString, v)]]
  end.

(** No repair running; uniqueness enforced, or ignored. *)
Definition ex_env : Environment :=
  {| getKeys := ex_getKeys;
     shouldIgnoreUniqueIndex := fun _ => false;
     inDBRepair := false |}.

Definition ex_env_ignoring : Environment :=
  {| getKeys := ex_getKeys;
     shouldIgnoreUniqueIndex := fun _ => true;
     inDBRepair := false |}.

(** The builder of the spec, on the example comparison; it rejects for
    its size a key that is a string of more than three characters. *)
Definition ex_sameKey (l r : BSONObj) : bool := keyRank l =? keyRank r.

Definition ex_tooLarge (key : BSONObj) : bool :=
  match key with
  | [(_, BString s)] => (3 <? String.length s)%nat
  | _ => false
  end.

Definition ex_bi : BuilderInterface := specBuilder ex_sameKey ex_tooLarge.

(** Index descriptors on [{a: 1}], version 1. *)
Definition ex_descriptor (unique dropDups : bool) : IndexDescriptor :=
  mkIndexDescriptor [("a", BNumberInt 1)] 1 unique dropDups.

(** The comparator of the examples. *)
Definition ex_comparison : BtreeExternalSortComparison (cmps := ex_cmps) :=
  mkComparison (cmps := ex_cmps) [("a", BNumberInt 1)] 1.

(** A bulk build on a descriptor, before any insert. *)
Definition ex_bulk (unique dropDups : bool)
  : BtreeBasedBulkAccessMethod (cmps := ex_cmps) :=
  mkBulk (ex_descriptor unique dropDups) ex_comparison [] 0 0 false.

(** Documents [{a: n}] and their locations. *)
Definition ex_doc (n : Z) : BSONObj := [("a", BNumberInt n)].
Definition ex_key (n : Z) : BSONObj := [(EmptyString, BNumberInt n)].
Definition ex_loc (i : Z) : DiskLoc := mkDiskLoc 0 i.

(** The locations [0:0 .. 0:n-1], and a set of one million of them. *)
Definition manyLocs (n : nat) : list DiskLoc :=
  (fun i => ex_loc (Z.of_nat i)) <$> seq 0 n.

Definition manyDups : gset DiskLoc :=
  list_to_set (manyLocs (Z.to_nat kMaxDupsToStore)).

(** Three entries: two with the key of rank 7, one with the key of rank
    8; and the spec's builder for a unique index after [ex_d1] went in. *)
Definition ex_d1 : Data := (ex_key 7, mkDiskLoc 1 0).
Definition ex_d2 : Data := (ex_key 7, mkDiskLoc 1 1).
Definition ex_d3 : Data := (ex_key 8, mkDiskLoc 1 2).

Definition ex_b1 : SpecBuilder := mkSpecBuilder false [ex_d1].

(** A builder whose structure fails, with an error that is not a
    duplicate key, on a key of negative rank. *)
Definition ex_failing_addKey (b : SpecBuilder) (key : BSONObj) (loc : DiskLoc)
  : Status * SpecBuilder :=
  if keyRank key <? 0 then (mkStatus (OtherError 2) "BadValue", b)
  else spec_addKey ex_sameKey ex_tooLarge b key loc.

Definition ex_failing_bi : BuilderInterface :=
  {| Builder := SpecBuilder;
     getBulkBuilder := spec_getBulkBuilder;
     addKey := ex_failing_addKey;
     builder_commit := spec_builder_commit |}.

(** The two scenarios of the spec: documents with keys 7, 8, 7 in a unique
    index with drop-duplicates on; one document with the keys 1 and 2. *)
Definition ex_docs_778 : list (BSONObj * DiskLoc) :=
  [(ex_doc 7, ex_loc 1); (ex_doc 8, ex_loc 2); (ex_doc 7, ex_loc 3)].

Definition ex_doc_multi : BSONObj := [("a", BArray [BNumberInt 1; BNumberInt 2])].

(** Two documents with the key 7; the same two in another file, where
    their entries are [ex_d1] and [ex_d2]. *)
Definition ex_docs_77 : list (BSONObj * DiskLoc) :=
  [(ex_doc 7, ex_loc 1); (ex_doc 7, ex_loc 2)].

Definition ex_docs_77_file1 : list (BSONObj * DiskLoc) :=
  [(ex_doc 7, mkDiskLoc 1 0); (ex_doc 7, mkDiskLoc 1 1)].

(** The same two and a document with the key 8: their entries are
    [ex_d1], [ex_d2] and [ex_d3]. *)
Definition ex_docs_778_file1 : list (BSONObj * DiskLoc) :=
  [(ex_doc 7, mkDiskLoc 1 0); (ex_doc 7, mkDiskLoc 1 1);
   (ex_doc 8, mkDiskLoc 1 2)].

(** A document of key 5 and one of key -1, which sorts first. *)
Definition ex_docs_negative : list (BSONObj * DiskLoc) :=
  [(ex_doc 5, ex_loc 1); (ex_doc (-1), ex_loc 2)].

(** Three documents, the second with two keys. *)
Definition ex_docs_multi_before : list (BSONObj * DiskLoc) := [(ex_doc 3, ex_loc 1)].
Definition ex_docs_multi_after : list (BSONObj * DiskLoc) := [(ex_doc 4, ex_loc 3)].

(** A document whose key the example builder rejects for its size, and
    a build with it. *)
Definition ex_doc_large : BSONObj := [("a", BString "a long string")].

Definition ex_docs_large : list (BSONObj * DiskLoc) :=
  [(ex_doc 1, ex_loc 1); (ex_doc_large, ex_loc 2)].

(** The builds of the examples, after their inserts. *)
Definition ex_build (env : Environment) (unique dropDups : bool)
    (docs : list (BSONObj * DiskLoc))
  : BtreeBasedBulkAccessMethod (cmps := ex_cmps) :=
  insert_all (env := env) docs (ex_bulk unique dropDups).

(** An engine with nothing in it, a second index spec, and the entry of
    another collection. *)
Definition ex_empty_engine : RocksEngine := mkRocksEngine ∅ [].



(** What a method holds after reading [ex_engine]: the value [ex_md],
    the spec of its one entry destroyed. *)
Definition ex_obj : MetaDataObj :=
  mkMetaDataObj ex_md (list_to_set (seq 0 1)).

(** The engine after [createMetaData] for [test.c]. *)
Definition ex_created : RocksEngine :=
  db_Put ex_empty_engine (_metaDataKey ex_entry)
    (toBSON (mkMetaData "test.c" [])).

(** A text of three characters, the second a NUL. *)
Definition ex_ns_with_NUL : string :=
  "a" +:+ String Ascii.zero "b".

End Examples.

(* ===================================================================== *)
(** ** Properties of the catalog entry *)
(* ===================================================================== *)

Module CatalogTheory.
Import Catalog Examples.

(** *** C strings *)

Lemma c_str_idemp (s : string) : c_str (c_str s) = c_str s.
Proof.
  induction s as [|c s IH]; [done|]. simpl.
  destruct (Ascii.eqb c Ascii.zero) eqn:E; [done|]. simpl.
  by rewrite E, IH.
Qed.

Lemma c_str_without_NUL (s : string) : hasNul s = false -> c_str s = s.
Proof.
  induction s as [|c s IH]; [done|]. simpl.
  destruct (Ascii.eqb c Ascii.zero); [done|]. simpl.
  intros H. by rewrite IH.
Qed.

(** *** Round trip of the BSON form *)

Lemma parse_loop_toBSON_loop (rest : list IndexMetaData) :
  forall (arr : BSONArrayBuilder) (acc acc' : list IndexMetaData),
    parse_loop arr acc = Returns acc' ->
    parse_loop (toBSON_loop arr rest) acc = Returns (acc' ++ rest).
Proof.
  induction rest as [|imd rest IH]; intros arr acc acc' Harr; simpl.
  - by rewrite app_nil_r.
  - rewrite (IH _ acc (acc' ++ [imd])); [by rewrite <- app_assoc|].
    clear IH. unfold appendSubobj.
    revert acc acc' Harr.
    induction arr as [|e arr IHarr]; intros acc acc' Harr; simpl in *.
    + destruct imd as [sp rd [ha hb] mk]. simpl. by inversion Harr.
    + destruct (Obj e) as [idx| | | |]; simpl in *; try discriminate.
      destruct (Obj (getField idx "spec")) as [sp| | | |];
        simpl in *; try discriminate.
      destruct (Int (getField idx "head_a")) as [ha| | | |];
        simpl in *; try discriminate.
      destruct (Int (getField idx "head_b")) as [hb| | | |];
        simpl in *; try discriminate.
      by apply IHarr.
Qed.

(** What [parse] reads back from [toBSON]: the namespace as a C string,
    the entries as they are. *)
Lemma parse_toBSON (this md : MetaData) :
  parse this (toBSON md)
  = Returns (mkMetaData (c_str (ns md)) (indexes this ++ indexes md)).
Proof.
  unfold parse, toBSON. simpl.
  by rewrite (parse_loop_toBSON_loop (indexes md) [] (indexes this)
                (indexes this)).
Qed.

(** C9. Serialising a [MetaData] whose namespace holds no NUL character
    with [toBSON] and parsing the result into a fresh [MetaData] gives the
    value back: the same namespace and, entry by entry in the same order,
    the same spec, ready flag, multikey flag and head location.  (Parsing
    into a value that already has indexes appends to them.) *)
Theorem toBSON_parse_roundtrip (md : MetaData) :
  hasNul (ns md) = false ->
  parse MetaData_new (toBSON md) = Returns md
  /\ (forall this md', parse this (toBSON md) = Returns md' ->
        ns md' = ns md /\ indexes md' = indexes this ++ indexes md)
  /\ exists md', parse MetaData_new (toBSON md) = Returns md'
       /\ ns md' = ns md
       /\ length (indexes md') = length (indexes md)
       /\ forall (i : nat) imd, indexes md !! i = Some imd ->
            exists imd', indexes md' !! i = Some imd'
              /\ spec imd' = spec imd /\ ready imd' = ready imd
              /\ multikey imd' = multikey imd /\ head imd' = head imd.
Proof.
  intros Hnul. apply c_str_without_NUL in Hnul.
  assert (Hrt : parse MetaData_new (toBSON md) = Returns md).
  { rewrite parse_toBSON, Hnul. by destruct md. }
  split; [exact Hrt|]. split.
  - intros this md' H. rewrite parse_toBSON, Hnul in H. by inversion H.
  - exists md. repeat split; [exact Hrt|]. intros i imd Hi. by exists imd.
Qed.

(** *** Looking an index up by its name *)

Lemma to_int_small (i : Z) : 0 <= i < 2 ^ 31 -> to_int i = i.
Proof. intros H. unfold to_int. rewrite Z.mod_small; lia. Qed.

Lemma findIndexOffset_from_sound name (rest : list IndexMetaData) :
  forall i off,
    0 <= i -> i + Z.of_nat (length rest) < 2 ^ 31 ->
    findIndexOffset_from i rest name = Returns off ->
    (off = -1 /\ Forall (namedOtherwise name) rest)
    \/ (i <= off < i + Z.of_nat (length rest)
        /\ exists imd, rest !! Z.to_nat (off - i) = Some imd
             /\ isNamed name imd
             /\ Forall (namedOtherwise name) (take (Z.to_nat (off - i)) rest)).
Proof.
  induction rest as [|imd rest IH]; intros i off Hi Hlen Hfind;
    simpl in Hfind.
  - inversion Hfind. left. by split.
  - rewrite length_cons, Nat2Z.inj_succ in Hlen.
    destruct (getField (spec imd) "name") as [|n| | | | | |] eqn:Hname;
      simpl in Hfind; try discriminate.
    destruct (String.eqb n name) eqn:Heq.
    + apply String.eqb_eq in Heq. subst n.
      inversion Hfind as [Hoff]. rewrite to_int_small by lia.
      right. rewrite length_cons, Nat2Z.inj_succ. split; [lia|].
      exists imd. rewrite Z.sub_diag. simpl. split; [done|].
      split; [done|constructor].
    + apply String.eqb_neq in Heq.
      assert (Hother : namedOtherwise name imd) by (by exists n).
      destruct (IH (i + 1) off ltac:(lia) ltac:(lia) Hfind)
        as [[-> Hall]|(Hrange & imd' & Hlook & Hnamed & Hbefore)].
      * left. split; [done|]. by constructor.
      * right. rewrite length_cons, Nat2Z.inj_succ. split; [lia|].
        exists imd'.
        replace (Z.to_nat (off - i)) with (S (Z.to_nat (off - (i + 1))))
          by lia.
        simpl. split; [done|]. split; [done|]. by constructor.
Qed.

Lemma findIndexOffset_from_complete name (rest : list IndexMetaData) :
  forall i (p : nat) imd,
    0 <= i -> i + Z.of_nat (length rest) < 2 ^ 31 ->
    rest !! p = Some imd -> isNamed name imd ->
    Forall (namedOtherwise name) (take p rest) ->
    findIndexOffset_from i rest name = Returns (i + Z.of_nat p).
Proof.
  induction rest as [|x rest IH]; intros i p imd Hi Hlen Hlook Hnamed Hbefore.
  - done.
  - rewrite length_cons, Nat2Z.inj_succ in Hlen. simpl.
    destruct p as [|p]; simpl in Hlook, Hbefore.
    + inversion Hlook; subst x. unfold isNamed in Hnamed. rewrite Hnamed.
      simpl. rewrite String.eqb_refl, to_int_small by lia.
      f_equal. lia.
    + apply Forall_cons in Hbefore as [(n & Hn & Hne) Hbefore].
      rewrite Hn. simpl.
      apply String.eqb_neq in Hne. rewrite Hne.
      rewrite (IH (i + 1) p imd) by (done || lia). f_equal. lia.
Qed.

Lemma findIndexOffset_from_absent name (rest : list IndexMetaData) :
  forall i, Forall (namedOtherwise name) rest ->
            findIndexOffset_from i rest name = Returns (-1).
Proof.
  induction rest as [|x rest IH]; intros i Hall; [done|].
  apply Forall_cons in Hall as [(n & Hn & Hne) Hall]. simpl.
  rewrite Hn. simpl. apply String.eqb_neq in Hne. rewrite Hne. by apply IH.
Qed.

(** X1. What [findIndexOffset] returns, for a vector of fewer than [2^31]
    indexes: either -1, and then every index has a string name other than
    the one asked for; or an offset inside the vector, and then the index
    there has that name and every index before it has another string
    name. *)
Theorem findIndexOffset_sound md name off :
  Z.of_nat (length (indexes md)) < 2 ^ 31 ->
  findIndexOffset md name = Returns off ->
  (off = -1 /\ Forall (namedOtherwise name) (indexes md))
  \/ (0 <= off < Z.of_nat (length (indexes md))
      /\ exists imd, indexes md !! Z.to_nat off = Some imd
           /\ isNamed name imd
           /\ Forall (namedOtherwise name) (take (Z.to_nat off) (indexes md))).
Proof.
  intros Hlen Hfind.
  destruct (findIndexOffset_from_sound name (indexes md) 0 off
              ltac:(lia) ltac:(lia) Hfind) as [H|H]; [by left|right].
  by rewrite Z.sub_0_r, Z.add_0_l in H.
Qed.

(** X2. [findIndexOffset] finds the first index of a name: when the index
    at position [p] has the name and those before it have other string
    names, the result is [p]; when every index has another string name,
    the result is -1; when an index that is reached has no string under
    ["name"], the lookup throws. *)
Theorem findIndexOffset_complete md name :
  Z.of_nat (length (indexes md)) < 2 ^ 31 ->
  (forall (p : nat) imd,
      indexes md !! p = Some imd -> isNamed name imd ->
      Forall (namedOtherwise name) (take p (indexes md)) ->
      findIndexOffset md name = Returns (Z.of_nat p))
  /\ (Forall (namedOtherwise name) (indexes md) ->
      findIndexOffset md name = Returns (-1))
  /\ (forall (p : nat) imd,
        indexes md !! p = Some imd ->
        String_ (getField (spec imd) "name") = Throws ->
        Forall (namedOtherwise name) (take p (indexes md)) ->
        findIndexOffset md name = Throws).
Proof.
  intros Hlen. split; [|split].
  - intros p imd Hlook Hnamed Hbefore.
    by rewrite <- (Z.add_0_l (Z.of_nat p));
      apply (findIndexOffset_from_complete name (indexes md) 0 p imd).
  - apply findIndexOffset_from_absent.
  - clear Hlen. unfold findIndexOffset. generalize 0.
    induction (indexes md) as [|x rest IH]; intros i p imd Hlook Hthrows Hbefore.
    + done.
    + destruct p as [|p]; simpl in Hlook, Hbefore |- *.
      * inversion Hlook; subst x. by rewrite Hthrows.
      * apply Forall_cons in Hbefore as [(n & Hn & Hne) Hbefore].
        rewrite Hn. simpl. apply String.eqb_neq in Hne. rewrite Hne.
        by apply (IH (i + 1) p imd).
Qed.

(** *** What a method holds after [_getMetaData_inlock] *)

Lemma read_spec_destroyed (md : MetaDataObj) (i : nat) :
  i ∈ destroyed md -> read_spec md i = UseAfterFree.
Proof. intros H. unfold read_spec. by rewrite bool_decide_eq_true_2. Qed.

Lemma read_spec_intact (md : MetaDataObj) (i : nat) :
  i ∉ destroyed md -> read_spec md i = Returns tt.
Proof. intros H. unfold read_spec. by rewrite bool_decide_eq_false_2. Qed.

(** The metadata stored under the key of the entry, read into a fresh
    object: the value comes back (the namespace as a C string), and the
    spec of every entry points to destroyed memory. *)
Lemma getMetaData_stored this eng (md : MetaData) :
  _getMetaData_inlock this (db_Put eng (_metaDataKey this) (toBSON md))
    MetaData_new
  = Returns (mkMetaDataObj (mkMetaData (c_str (ns md)) (indexes md))
               (list_to_set (seq 0 (length (indexes md))))).
Proof.
  unfold _getMetaData_inlock, db_Get, db_Put. simpl.
  rewrite lookup_insert_eq, parse_toBSON. simpl.
  by rewrite Nat.sub_0_r.
Qed.

Lemma getMetaData_destroyed this eng (md : MetaDataObj) :
  _getMetaData_inlock this eng MetaData_new = Returns md ->
  destroyed md = list_to_set (seq 0 (length (indexes md)))
  /\ c_str (ns md) = ns md.
Proof.
  unfold _getMetaData_inlock.
  destruct (db_Get eng (_metaDataKey this)) as [result|]; [|discriminate].
  destruct (parse MetaData_new result) as [v| | | |] eqn:Hparse;
    simpl; try discriminate.
  intros H. inversion H; subst md. simpl. rewrite Nat.sub_0_r.
  split; [done|].
  unfold parse in Hparse.
  assert (Hns : c_str (valuestrsafe (getField result "ns"))
                = valuestrsafe (getField result "ns")).
  { unfold valuestrsafe.
    destruct (getField result "ns"); try done. apply c_str_idemp. }
  destruct (isABSONObj (getField result "indexes")).
  - destruct (Array (getField result "indexes")) as [entries| | | |];
      simpl in Hparse; try discriminate.
    destruct (parse_loop entries _) as [l| | | |];
      simpl in Hparse; try discriminate.
    injection Hparse as Hv. rewrite <- Hv. exact Hns.
  - injection Hparse as Hv. rewrite <- Hv. exact Hns.
Qed.

(** With at least one entry parsed, the first spec is one of those. *)
Lemma getMetaData_first_destroyed this eng (md : MetaDataObj) :
  _getMetaData_inlock this eng MetaData_new = Returns md ->
  indexes md <> [] -> 0%nat ∈ destroyed md.
Proof.
  intros Hget Hne.
  destruct (getMetaData_destroyed _ _ _ Hget) as [-> _].
  apply elem_of_list_to_set, elem_of_seq.
  destruct (indexes md); [done|]. simpl. lia.
Qed.




Lemma getAllIndexes_loop_destroyed (md : MetaDataObj) names :
  indexes md <> [] -> 0%nat ∈ destroyed md ->
  getAllIndexes_loop md 0 (indexes md) names = UseAfterFree.
Proof.
  intros Hne H0.
  destruct (indexes md) as [|imd rest]; [done|].
  cbn [findIndexOffset_obj_from toBSON_obj_loop getAllIndexes_loop].
  change (Z.to_nat 0) with 0%nat.
  by rewrite (read_spec_destroyed md 0 H0).
Qed.

(** The loops on an object all of whose specs are intact compute what
    the functions on values compute. *)
Lemma findIndexOffset_obj_from_intact (md : MetaDataObj) name
    (rest : list IndexMetaData) :
  destroyed md = ∅ ->
  forall i, findIndexOffset_obj_from md i rest name
            = findIndexOffset_from i rest name.
Proof.
  intros Hnone.
  induction rest as [|imd rest IH]; intros i; [done|]. simpl.
  rewrite read_spec_intact by (rewrite Hnone; apply not_elem_of_empty).
  simpl. destruct (String_ (getField (spec imd) "name")); simpl; try done.
  destruct (String.eqb _ _); [done|]. apply IH.
Qed.

Lemma findIndexOffset_obj_intact (md : MetaDataObj) name :
  destroyed md = ∅ -> findIndexOffset_obj md name = findIndexOffset md name.
Proof. intros H. by apply findIndexOffset_obj_from_intact. Qed.



(** *** Counting *)

Lemma completed_loop_readyCount (l : list IndexMetaData) :
  forall num, completed_loop l num = num + readyCount l.
Proof.
  unfold readyCount.
  induction l as [|imd l IH]; intros num; simpl; [lia|].
  rewrite IH. destruct (ready imd); simpl; lia.
Qed.

Lemma readyCount_bounds (l : list IndexMetaData) :
  0 <= readyCount l <= Z.of_nat (length l)
  /\ (readyCount l = Z.of_nat (length l)
      <-> Forall (fun imd => ready imd = true) l).
Proof.
  unfold readyCount.
  induction l as [|imd l [IHb IHall]]; simpl.
  - split; [lia|]. split; [constructor|done].
  - destruct (ready imd) eqn:Hr; simpl.
    + split; [lia|]. split.
      * intros H. constructor; [done|]. apply IHall. lia.
      * intros H. apply Forall_cons in H as [_ H]. apply IHall in H. lia.
    + split; [lia|]. split; [lia|].
      intros H. apply Forall_cons in H as [H _]. congruence.
Qed.

Lemma getCompletedIndexCount_readyCount this eng (md : MetaDataObj) :
  _getMetaData_inlock this eng MetaData_new = Returns md ->
  getCompletedIndexCount this eng = Returns (readyCount (indexes md)).
Proof.
  intros Hget. unfold getCompletedIndexCount, _getMetaData. rewrite Hget.
  simpl. by rewrite completed_loop_readyCount.
Qed.

(** X10. The two counts, for metadata of fewer than [2^31] indexes:
    [getTotalIndexCount] is the number of indexes, [getCompletedIndexCount]
    lies between 0 and it, and the two are equal exactly when every index
    is ready. *)
Theorem completed_count_at_most_total this eng md :
  _getMetaData_inlock this eng MetaData_new = Returns md ->
  Z.of_nat (length (indexes md)) < 2 ^ 31 ->
  exists total completed,
    getTotalIndexCount this eng = Returns total
    /\ getCompletedIndexCount this eng = Returns completed
    /\ total = Z.of_nat (length (indexes md))
    /\ 0 <= completed <= total
    /\ (completed = total <-> Forall (fun imd => ready imd = true) (indexes md)).
Proof.
  intros Hget Hlen.
  destruct (readyCount_bounds (indexes md)) as [Hb Hall].
  exists (Z.of_nat (length (indexes md))), (readyCount (indexes md)).
  split.
  { unfold getTotalIndexCount, _getMetaData. rewrite Hget. simpl.
    by rewrite to_int_small by lia. }
  split; [by apply getCompletedIndexCount_readyCount|]. done.
Qed.

(** *** The methods that read a spec *)

(** C10. [setIndexIsMultikey] on an existing index, as the code runs it.
    The collection [test.c] is created and given its index [a_1] by the
    methods themselves; the metadata then has one index.
    [setIndexIsMultikey] for [a_1], with the flag the index has or with
    the other one, reads in [findIndexOffset] the spec of the entry, which
    points into the string [_getMetaData_inlock] destroyed at its return.
    The behaviour is undefined: the call neither returns [false] with the
    metadata unwritten nor writes the flag and returns [true].
    [isIndexMultikey] reads the same destroyed spec. *)
Theorem setIndexIsMultikey_reads_destroyed_spec :
  exists eng0 eng1,
    createMetaData ex_entry ex_empty_engine = Returns eng0
    /\ prepareForIndexBuild ex_entry eng0 (spec ex_index) (head ex_index)
       = Returns eng1
    /\ getTotalIndexCount ex_entry eng1 = Returns 1
    /\ getCompletedIndexCount ex_entry eng1 = Returns 0
    /\ setIndexIsMultikey ex_entry eng1 "a_1" false = UseAfterFree
    /\ setIndexIsMultikey ex_entry eng1 "a_1" true = UseAfterFree
    /\ isIndexMultikey ex_entry eng1 "a_1" = UseAfterFree.
Proof.
  eexists. eexists.
  split; [reflexivity|]. split; [reflexivity|].
  repeat split; reflexivity.
Qed.


(** X5. Stored metadata with no index: the lookup reads no spec and gives
    -1, so the four readers and the three writers that take an index
    name all die on their invariant; nothing is written. *)
Theorem missing_index_fails_invariant this eng (md : MetaDataObj) name :
  _getMetaData_inlock this eng MetaData_new = Returns md ->
  indexes md = [] ->
  getIndexSpec this eng name = InvariantFailed
  /\ isIndexMultikey this eng name = InvariantFailed
  /\ getIndexHead this eng name = InvariantFailed
  /\ isIndexReady this eng name = InvariantFailed
  /\ (forall mk, setIndexIsMultikey this eng name mk = InvariantFailed)
  /\ (forall newHead, setIndexHead this eng name newHead = InvariantFailed)
  /\ indexBuildSuccess this eng name = InvariantFailed.
Proof.
  intros Hget Hnil.
  assert (Hfind : findIndexOffset_obj md name = Returns (-1)).
  { unfold findIndexOffset_obj. by rewrite Hnil. }
  unfold getIndexSpec, isIndexMultikey, getIndexHead, isIndexReady,
    setIndexIsMultikey, setIndexHead, indexBuildSuccess, _getMetaData.
  rewrite Hget. simpl. rewrite Hfind. simpl. done.
Qed.

(** X11. [getAllIndexes]: on stored metadata with no index it leaves the
    vector as it was; with at least one index it reads the spec of the
    first entry for its name, which points to destroyed memory. *)
Theorem getAllIndexes_reads_destroyed_spec this eng (md : MetaDataObj) names :
  _getMetaData_inlock this eng MetaData_new = Returns md ->
  (indexes md = [] -> getAllIndexes this eng names = Returns names)
  /\ (indexes md <> [] -> getAllIndexes this eng names = UseAfterFree).
Proof.
  intros Hget. unfold getAllIndexes, _getMetaData. rewrite Hget. simpl.
  split.
  - intros Hnil. by rewrite Hnil.
  - intros Hne. apply getAllIndexes_loop_destroyed; [done|].
    by apply (getMetaData_first_destroyed this eng).
Qed.

(** *** Creating and dropping the metadata, adding an index *)

Lemma getters_without_metadata this eng :
  db_Get eng (_metaDataKey this) = None ->
  (forall out, _getMetaData this eng out = InvariantFailed)
  /\ getTotalIndexCount this eng = InvariantFailed
  /\ getCompletedIndexCount this eng = InvariantFailed
  /\ (forall names, getAllIndexes this eng names = InvariantFailed)
  /\ (forall name,
        getIndexSpec this eng name = InvariantFailed
        /\ isIndexMultikey this eng name = InvariantFailed
        /\ getIndexHead this eng name = InvariantFailed
        /\ isIndexReady this eng name = InvariantFailed
        /\ (forall mk, setIndexIsMultikey this eng name mk = InvariantFailed)
        /\ (forall h, setIndexHead this eng name h = InvariantFailed)
        /\ indexBuildSuccess this eng name = InvariantFailed)
  /\ (forall infoObj nullLoc,
        prepareForIndexBuild this eng infoObj nullLoc = InvariantFailed).
Proof.
  intros Hnone.
  unfold getTotalIndexCount, getCompletedIndexCount, getAllIndexes,
    getIndexSpec, isIndexMultikey, getIndexHead, isIndexReady,
    setIndexIsMultikey, setIndexHead, indexBuildSuccess,
    prepareForIndexBuild, _getMetaData, _getMetaData_inlock.
  rewrite Hnone. simpl. done.
Qed.

(** X6. [createMetaData] on an engine that has nothing under the metadata
    key: one [Put]; the metadata then reads as the namespace of the entry
    (as the C string [parse] takes: up to a NUL, if it has one) with no
    index and no spec to point anywhere, both counts are 0,
    [getAllIndexes] adds no name, a lookup of any index name dies on the
    invariant, and a second [createMetaData] dies on its invariant. *)
Theorem createMetaData_fresh this eng :
  db_Get eng (_metaDataKey this) = None ->
  exists eng',
    createMetaData this eng = Returns eng'
    /\ length (puts eng') = S (length (puts eng))
    /\ _getMetaData this eng' MetaData_new
       = Returns (mkMetaDataObj (mkMetaData (c_str (entry_ns this)) []) ∅)
    /\ getTotalIndexCount this eng' = Returns 0
    /\ getCompletedIndexCount this eng' = Returns 0
    /\ (forall names, getAllIndexes this eng' names = Returns names)
    /\ (forall name, isIndexReady this eng' name = InvariantFailed)
    /\ createMetaData this eng' = InvariantFailed.
Proof.
  intros Hnone.
  set (md := mkMetaData (entry_ns this) []).
  set (eng' := db_Put eng (_metaDataKey this) (toBSON md)).
  assert (Hget : _getMetaData_inlock this eng' MetaData_new
                 = Returns (mkMetaDataObj
                              (mkMetaData (c_str (entry_ns this)) []) ∅))
    by apply (getMetaData_stored this eng md).
  exists eng'.
  split.
  { unfold createMetaData. rewrite Hnone. by rewrite bool_decide_eq_true_2. }
  split; [simpl; rewrite length_app; simpl; lia|].
  split; [done|].
  unfold getTotalIndexCount, getCompletedIndexCount, getAllIndexes,
    isIndexReady, _getMetaData.
  rewrite Hget. simpl.
  split; [done|]. split; [done|]. split; [done|]. split; [done|].
  unfold createMetaData, eng', db_Get, db_Put. simpl.
  rewrite lookup_insert_eq. by rewrite bool_decide_eq_false_2.
Qed.

(** X7. After [dropMetaData] every method that reads the metadata dies on
    the invariant of [_getMetaData_inlock]; the other keys of the engine
    are as before, no [Put] is made, and [createMetaData] succeeds
    again. *)
Theorem dropMetaData_forgets this eng :
  let eng' := dropMetaData this eng in
  (forall out, _getMetaData this eng' out = InvariantFailed)
  /\ getTotalIndexCount this eng' = InvariantFailed
  /\ getCompletedIndexCount this eng' = InvariantFailed
  /\ (forall names, getAllIndexes this eng' names = InvariantFailed)
  /\ (forall name,
        getIndexSpec this eng' name = InvariantFailed
        /\ isIndexMultikey this eng' name = InvariantFailed
        /\ getIndexHead this eng' name = InvariantFailed
        /\ isIndexReady this eng' name = InvariantFailed
        /\ (forall mk, setIndexIsMultikey this eng' name mk = InvariantFailed)
        /\ (forall h, setIndexHead this eng' name h = InvariantFailed)
        /\ indexBuildSuccess this eng' name = InvariantFailed)
  /\ (forall infoObj nullLoc,
        prepareForIndexBuild this eng' infoObj nullLoc = InvariantFailed)
  /\ (forall key, key <> _metaDataKey this -> db eng' !! key = db eng !! key)
  /\ puts eng' = puts eng
  /\ exists eng'', createMetaData this eng' = Returns eng''.
Proof.
  intros eng'.
  assert (Hnone : db_Get eng' (_metaDataKey this) = None).
  { unfold eng', dropMetaData, db_Delete, db_Get. simpl.
    apply lookup_delete_eq. }
  destruct (getters_without_metadata this eng' Hnone)
    as (H1 & H2 & H3 & H4 & H5 & H6).
  repeat (split; [done|]).
  split.
  { intros key Hkey. unfold eng', dropMetaData, db_Delete. simpl.
    by apply lookup_delete_ne. }
  split; [done|].
  eexists. unfold createMetaData. rewrite Hnone.
  by rewrite bool_decide_eq_true_2.
Qed.


(** *** Collections are kept apart *)




(** *** The properties at the example collection *)

(** A namespace with a NUL in it is stored whole and read back cut: the
    round trip of [toBSON] and [parse] loses what follows the NUL. *)
Lemma namespace_is_cut_at_NUL :
  let md := mkMetaData ex_ns_with_NUL [] in
  parse MetaData_new (toBSON md) = Returns (mkMetaData "a" [])
  /\ parse MetaData_new (toBSON md) <> Returns md.
Proof. intros md. split; [reflexivity|discriminate]. Qed.

Lemma toBSON_parse_roundtrip_witness :
  hasNul (ns ex_md) = false
  /\ parse MetaData_new (toBSON ex_md) = Returns ex_md.
Proof.
  assert (Hnul : hasNul (ns ex_md) = false) by reflexivity.
  split; [exact Hnul|].
  by destruct (toBSON_parse_roundtrip ex_md Hnul) as [? _].
Defined.

Lemma ex_stored :
  _getMetaData_inlock ex_entry ex_engine MetaData_new = Returns ex_obj.
Proof. apply (getMetaData_stored ex_entry (mkRocksEngine ∅ []) ex_md). Qed.

Lemma ex_md_small : Z.of_nat (length (indexes ex_md)) < 2 ^ 31.
Proof. simpl. lia. Qed.

Lemma findIndexOffset_sound_witness :
  Z.of_nat (length (indexes ex_md)) < 2 ^ 31
  /\ findIndexOffset ex_md "a_1" = Returns 0
  /\ exists imd, indexes ex_md !! Z.to_nat 0 = Some imd /\ isNamed "a_1" imd.
Proof.
  assert (Hfind : findIndexOffset ex_md "a_1" = Returns 0) by reflexivity.
  split; [exact ex_md_small|]. split; [exact Hfind|].
  destruct (findIndexOffset_sound ex_md "a_1" 0 ex_md_small Hfind)
    as [[H _]|(_ & imd & Hlook & Hnamed & _)]; [discriminate|].
  by exists imd.
Defined.

Lemma findIndexOffset_complete_witness :
  Z.of_nat (length (indexes ex_md)) < 2 ^ 31
  /\ findIndexOffset ex_md "b_1" = Returns (-1).
Proof.
  split; [exact ex_md_small|].
  destruct (findIndexOffset_complete ex_md "b_1" ex_md_small) as (_ & H & _).
  apply H. repeat constructor. by exists "a_1".
Defined.


Lemma ex_created_stored :
  _getMetaData_inlock ex_entry ex_created MetaData_new
  = Returns (mkMetaDataObj (mkMetaData "test.c" []) ∅).
Proof.
  apply (getMetaData_stored ex_entry ex_empty_engine (mkMetaData "test.c" [])).
Qed.

Lemma missing_index_fails_invariant_witness :
  _getMetaData_inlock ex_entry ex_created MetaData_new
  = Returns (mkMetaDataObj (mkMetaData "test.c" []) ∅)
  /\ isIndexReady ex_entry ex_created "a_1" = InvariantFailed.
Proof.
  split; [exact ex_created_stored|].
  by destruct (missing_index_fails_invariant ex_entry ex_created _ "a_1"
                 ex_created_stored eq_refl) as (_ & _ & _ & ? & _).
Defined.

Lemma getAllIndexes_reads_destroyed_spec_witness :
  _getMetaData_inlock ex_entry ex_engine MetaData_new = Returns ex_obj
  /\ getAllIndexes ex_entry ex_engine ["x"] = UseAfterFree.
Proof.
  split; [exact ex_stored|].
  destruct (getAllIndexes_reads_destroyed_spec ex_entry ex_engine ex_obj
              ["x"] ex_stored) as [_ H].
  apply H. discriminate.
Defined.

Lemma createMetaData_fresh_witness :
  db_Get ex_empty_engine (_metaDataKey ex_entry) = None
  /\ exists eng',
       createMetaData ex_entry ex_empty_engine = Returns eng'
       /\ getTotalIndexCount ex_entry eng' = Returns 0.
Proof.
  assert (Hnone : db_Get ex_empty_engine (_metaDataKey ex_entry) = None)
    by reflexivity.
  split; [exact Hnone|].
  destruct (createMetaData_fresh ex_entry ex_empty_engine Hnone)
    as (eng' & Hcreate & _ & _ & Htotal & _).
  by exists eng'.
Defined.


Lemma completed_count_at_most_total_witness :
  _getMetaData_inlock ex_entry ex_engine MetaData_new = Returns ex_obj
  /\ Z.of_nat (length (indexes ex_obj)) < 2 ^ 31
  /\ exists total completed,
       getTotalIndexCount ex_entry ex_engine = Returns total
       /\ getCompletedIndexCount ex_entry ex_engine = Returns completed
       /\ 0 <= completed <= total.
Proof.
  split; [exact ex_stored|]. split; [exact ex_md_small|].
  destruct (completed_count_at_most_total ex_entry ex_engine ex_obj ex_stored
              ex_md_small) as (total & completed & Ht & Hc & _ & Hb & _).
  by exists total, completed.
Defined.


End CatalogTheory.

(* ===================================================================== *)
(** ** Properties of the bulk build *)
(* ===================================================================== *)

Module BulkTheory.
Import Bulk Examples.

Section Loop.
Context {cmps : Comparisons} {env : Environment} {bi : BuilderInterface}.
Implicit Types (d : Data) (b : Builder) (dups : gset DiskLoc)
  (st : Status) (i pre rest : list Data).

(** *** One pass of the loop, case by case *)

Lemma commitStep_ok da dd d b dups st b' :
  addKey b d.1 d.2 = (st, b') -> isOK st = true ->
  commitStep da dd d b dups = (passCalls d, Continues b' dups).
Proof. intros Hadd Hok. unfold commitStep. by rewrite Hadd, Hok. Qed.

Lemma commitStep_fatal da dd d b dups st b' :
  addKey b d.1 d.2 = (st, b') -> isOK st = false ->
  code st <> DuplicateKey ->
  commitStep da dd d b dups = ([EvNext d; EvAddKey d], Returned st b' dups).
Proof.
  intros Hadd Hok Hcode. unfold commitStep. rewrite Hadd, Hok. simpl.
  by destruct (code st).
Qed.

Lemma commitStep_dup_dropped da d b dups st b' :
  addKey b d.1 d.2 = (st, b') -> code st = DuplicateKey ->
  Z.of_nat (size ({[ d.2 ]} ∪ dups)) <= kMaxDupsToStore ->
  commitStep da true d b dups
  = (passCalls d, Continues b' ({[ d.2 ]} ∪ dups)).
Proof.
  intros Hadd Hcode Hsize. unfold commitStep, isOK.
  rewrite Hadd, Hcode. simpl.
  destruct (_ <? _) eqn:E; [lia|done].
Qed.

Lemma commitStep_dup_too_many da d b dups st b' :
  addKey b d.1 d.2 = (st, b') -> code st = DuplicateKey ->
  kMaxDupsToStore < Z.of_nat (size ({[ d.2 ]} ∪ dups)) ->
  commitStep da true d b dups
  = ([EvNext d; EvAddKey d], Returned tooManyDups b' ({[ d.2 ]} ∪ dups)).
Proof.
  intros Hadd Hcode Hsize. unfold commitStep, isOK.
  rewrite Hadd, Hcode. simpl.
  destruct (_ <? _) eqn:E; [done|lia].
Qed.

Lemma commitStep_dup_rejected d b dups st b' :
  addKey b d.1 d.2 = (st, b') -> code st = DuplicateKey ->
  commitStep false false d b dups
  = ([EvNext d; EvAddKey d], Returned st b' dups).
Proof.
  intros Hadd Hcode. unfold commitStep, isOK. by rewrite Hadd, Hcode.
Qed.

Lemma commitStep_dup_allowed d b dups st b' :
  addKey b d.1 d.2 = (st, b') -> code st = DuplicateKey ->
  commitStep true false d b dups = (passCalls d, Continues b' dups).
Proof.
  intros Hadd Hcode. unfold commitStep, isOK. by rewrite Hadd, Hcode.
Qed.

(** A pass either makes the three calls and goes on, or makes the first
    two and returns a status that is not OK. *)
Lemma commitStep_cases da dd d b dups :
  (exists b' dups',
      commitStep da dd d b dups = (passCalls d, Continues b' dups'))
  \/ (exists st b' dups',
        commitStep da dd d b dups
        = ([EvNext d; EvAddKey d], Returned st b' dups')
        /\ isOK st = false).
Proof.
  unfold commitStep.
  destruct (addKey b d.1 d.2) as [st b'].
  destruct (isOK st) eqn:Hok; simpl; [by eauto|].
  destruct (notDuplicateKey (code st)); [by eauto 10|].
  destruct dd.
  - destruct (_ <? _); [right|left]; by eauto 10.
  - destruct da; simpl; by eauto 10.
Qed.

(** *** The loop *)

Lemma commitLoop_cons_Continues da dd d rest b dups evs b' dups' :
  commitStep da dd d b dups = (evs, Continues b' dups') ->
  commitLoop da dd (d :: rest) b dups
  = (evs ++ (commitLoop da dd rest b' dups').1,
     (commitLoop da dd rest b' dups').2).
Proof.
  intros Hstep. simpl. rewrite Hstep.
  by destruct (commitLoop da dd rest b' dups').
Qed.

Lemma commitLoop_cons_Returned da dd d rest b dups evs st b' dups' :
  commitStep da dd d b dups = (evs, Returned st b' dups') ->
  commitLoop da dd (d :: rest) b dups = (evs, Returned st b' dups').
Proof. intros Hstep. simpl. by rewrite Hstep. Qed.

(** The loop over [pre ++ rest] when the passes over [pre] all go on. *)
Lemma commitLoop_app da dd pre rest b dups evs b' dups' :
  commitLoop da dd pre b dups = (evs, Continues b' dups') ->
  commitLoop da dd (pre ++ rest) b dups
  = (evs ++ (commitLoop da dd rest b' dups').1,
     (commitLoop da dd rest b' dups').2).
Proof.
  revert b dups evs.
  induction pre as [|d pre IH]; intros b dups evs Hpre; simpl in Hpre.
  - inversion Hpre; subst. simpl. by destruct (commitLoop _ _ _ _ _).
  - destruct (commitStep da dd d b dups) as [evs1 [b1 dups1|st b1 dups1]]
      eqn:Hstep; [|discriminate].
    destruct (commitLoop da dd pre b1 dups1) as [evs2 r2] eqn:Hloop.
    inversion Hpre; subst.
    rewrite <- app_comm_cons.
    rewrite (commitLoop_cons_Continues _ _ _ _ _ _ _ _ _ Hstep).
    rewrite (IH _ _ _ Hloop). simpl. by rewrite app_assoc.
Qed.

(** When the loop runs to its end, every entry got its three calls. *)
Lemma commitLoop_Continues_calls da dd i b dups evs b' dups' :
  commitLoop da dd i b dups = (evs, Continues b' dups') ->
  evs = i ≫= passCalls.
Proof.
  revert b dups evs.
  induction i as [|d i IH]; intros b dups evs Hloop; simpl in Hloop.
  - by inversion Hloop.
  - destruct (commitStep_cases da dd d b dups)
      as [(b1 & dups1 & Hstep)|(st & b1 & dups1 & Hstep & _)];
      rewrite Hstep in Hloop; [|discriminate].
    destruct (commitLoop da dd i b1 dups1) as [evs2 r2] eqn:Hrest.
    inversion Hloop; subst.
    by rewrite (IH _ _ _ Hrest).
Qed.

(** When [commit] returns from inside the loop, the entries before the
    one it returns at got their three calls, that one got [next] and
    [addKey] only, and the status is not OK. *)
Lemma commitLoop_Returned_calls da dd i b dups evs st b' dups' :
  commitLoop da dd i b dups = (evs, Returned st b' dups') ->
  isOK st = false
  /\ exists pre d rest,
       i = pre ++ d :: rest
       /\ evs = (pre ≫= passCalls) ++ [EvNext d; EvAddKey d].
Proof.
  revert b dups evs.
  induction i as [|d i IH]; intros b dups evs Hloop; simpl in Hloop.
  - discriminate.
  - destruct (commitStep_cases da dd d b dups)
      as [(b1 & dups1 & Hstep)|(st1 & b1 & dups1 & Hstep & Hst)];
      rewrite Hstep in Hloop.
    + destruct (commitLoop da dd i b1 dups1) as [evs2 r2] eqn:Hrest.
      inversion Hloop; subst.
      destruct (IH _ _ _ Hrest) as (Hok & pre & x & rest & -> & ->).
      split; [done|]. by exists (d :: pre), x, rest.
    + inversion Hloop; subst. split; [done|]. by exists [], d, i.
Qed.

(** *** Counting calls *)

Lemma countNext_app (t1 t2 : list Event) :
  countNext (t1 ++ t2) = (countNext t1 + countNext t2)%nat.
Proof. unfold countNext. by rewrite List.filter_app, length_app. Qed.

Lemma countHit_app (t1 t2 : list Event) :
  countHit (t1 ++ t2) = (countHit t1 + countHit t2)%nat.
Proof. unfold countHit. by rewrite List.filter_app, length_app. Qed.

Lemma countFinished_app (t1 t2 : list Event) :
  countFinished (t1 ++ t2) = (countFinished t1 + countFinished t2)%nat.
Proof. unfold countFinished. by rewrite List.filter_app, length_app. Qed.

Lemma counts_passCalls i :
  countNext (i ≫= passCalls) = length i
  /\ countHit (i ≫= passCalls) = length i
  /\ countFinished (i ≫= passCalls) = 0%nat.
Proof.
  induction i as [|d i (IH1 & IH2 & IH3)]; [done|].
  change ((d :: i) ≫= passCalls) with (passCalls d ++ (i ≫= passCalls)).
  rewrite countNext_app, countHit_app, countFinished_app, IH1, IH2, IH3.
  done.
Qed.

Lemma counts_prologue this :
  countNext (commit_prologue this) = 0%nat
  /\ countHit (commit_prologue this) = 0%nat
  /\ countFinished (commit_prologue this) = 0%nat.
Proof. unfold commit_prologue. by destruct (_isMultiKey this). Qed.

Lemma counts_epilogue this mi n :
  countNext (commit_epilogue this mi n) = 0%nat
  /\ countHit (commit_epilogue this mi n) = 0%nat
  /\ countFinished (commit_epilogue this mi n) = 1%nat.
Proof.
  unfold commit_epilogue. by destruct (negb _ && negb _).
Qed.

(** The builder is not called before the loop, and in a pass only by
    [addKey]. *)
Lemma no_builder_commit_prologue this mi :
  EvBuilderCommit mi ∉ commit_prologue this.
Proof.
  unfold commit_prologue. intros H.
  destruct (_isMultiKey this); simpl in H;
    repeat (apply elem_of_cons in H as [H|H]; [discriminate|]);
    by apply elem_of_nil in H.
Qed.

Lemma no_builder_commit_passCalls i mi :
  EvBuilderCommit mi ∉ i ≫= passCalls.
Proof.
  rewrite list_elem_of_bind. intros (d & H & _).
  unfold passCalls in H.
  repeat (apply elem_of_cons in H as [H|H]; [discriminate|]).
  by apply elem_of_nil in H.
Qed.

(** *** [commit] from its loop *)

Lemma commit_Returned this dupsToDrop mi evs st b dups :
  commitLoop (dupsAllowed_of (_real this)) (dropDups_of (_real this))
    (sorter_done (_sorterComparison this) (_sorter this))
    (getBulkBuilder (dupsAllowed_of (_real this))) dupsToDrop
  = (evs, Returned st b dups) ->
  commit this dupsToDrop mi
  = mkCommitResult st dups b (commit_prologue this ++ evs).
Proof. intros Hloop. unfold commit. by rewrite Hloop. Qed.

Lemma commit_Continues this dupsToDrop mi evs b dups :
  commitLoop (dupsAllowed_of (_real this)) (dropDups_of (_real this))
    (sorter_done (_sorterComparison this) (_sorter this))
    (getBulkBuilder (dupsAllowed_of (_real this))) dupsToDrop
  = (evs, Continues b dups) ->
  commit this dupsToDrop mi
  = mkCommitResult Status_OK dups (builder_commit b mi).2
      (commit_prologue this ++ evs
       ++ commit_epilogue this mi (builder_commit b mi).1).
Proof.
  intros Hloop. unfold commit. rewrite Hloop.
  by destruct (builder_commit b mi).
Qed.

(** [commit] when the loop returns at the entry [d] that follows [pre]. *)
Lemma commit_returns_at this dupsToDrop mi pre d rest evs b dups st b' dups' :
  sorter_done (_sorterComparison this) (_sorter this) = pre ++ d :: rest ->
  commitLoop (dupsAllowed_of (_real this)) (dropDups_of (_real this)) pre
    (getBulkBuilder (dupsAllowed_of (_real this))) dupsToDrop
  = (evs, Continues b dups) ->
  commitStep (dupsAllowed_of (_real this)) (dropDups_of (_real this))
    d b dups
  = ([EvNext d; EvAddKey d], Returned st b' dups') ->
  commit this dupsToDrop mi
  = mkCommitResult st dups' b'
      (commit_prologue this ++ (pre ≫= passCalls) ++ [EvNext d; EvAddKey d]).
Proof.
  intros Hsort Hpre Hstep.
  apply commit_Returned. rewrite Hsort.
  rewrite (commitLoop_app _ _ _ _ _ _ _ _ _ Hpre).
  rewrite (commitLoop_cons_Returned _ _ _ _ _ _ _ _ _ _ Hstep). simpl.
  by rewrite (commitLoop_Continues_calls _ _ _ _ _ _ _ _ Hpre).
Qed.

(** What the trace of such a return shows: the entries after [d] were
    never asked for, and neither [finished] nor the builder's [commit]
    was called. *)
Lemma returned_trace_facts this pre d :
  let tr := commit_prologue this ++ (pre ≫= passCalls)
            ++ [EvNext d; EvAddKey d] in
  countNext tr = S (length pre)
  /\ countHit tr = length pre
  /\ countFinished tr = 0%nat
  /\ forall mi, EvBuilderCommit mi ∉ tr.
Proof.
  intros tr. unfold tr.
  destruct (counts_prologue this) as (P1 & P2 & P3).
  destruct (counts_passCalls pre) as (C1 & C2 & C3).
  rewrite !countNext_app, !countHit_app, !countFinished_app.
  rewrite P1, P2, P3, C1, C2, C3.
  unfold countNext, countHit, countFinished. simpl.
  split; [lia|]. split; [lia|]. split; [lia|].
  intros mi. rewrite !elem_of_app.
  intros [H|[H|H]].
  - by apply no_builder_commit_prologue in H.
  - by apply no_builder_commit_passCalls in H.
  - repeat (apply elem_of_cons in H as [H|H]; [discriminate|]).
    by apply elem_of_nil in H.
Qed.

(** *** The duplicate policy of the loop *)

(** C1 (as amended). In the loop, when [addKey] reports a duplicate key
    for an entry of a unique index whose uniqueness the build was not
    told to ignore: with drop-duplicates on, the location of the entry
    is added to the duplicate set, the builder is left as [addKey]
    returned it (no second call for the entry) and, as long as the set
    then holds at most [kMaxDupsToStore] locations, the loop goes on
    with the next entry; when the set is larger, [commit] returns the
    internal error instead.  With drop-duplicates off, [commit] returns
    at once with the status [addKey] gave. *)
Theorem commitLoop_duplicate_on_unique_index descriptor d rest b dups st b' :
  unique descriptor = true ->
  shouldIgnoreUniqueIndex descriptor = false ->
  addKey b d.1 d.2 = (st, b') ->
  code st = DuplicateKey ->
  let da := dupsAllowed_of descriptor in
  let dd := dropDups_of descriptor in
  let dups' := {[ d.2 ]} ∪ dups in
  (dd = true -> Z.of_nat (size dups') <= kMaxDupsToStore ->
     commitLoop da dd (d :: rest) b dups
     = (passCalls d ++ (commitLoop da dd rest b' dups').1,
        (commitLoop da dd rest b' dups').2))
  /\ (dd = true -> kMaxDupsToStore < Z.of_nat (size dups') ->
      commitLoop da dd (d :: rest) b dups
      = ([EvNext d; EvAddKey d], Returned tooManyDups b' dups'))
  /\ (dd = false ->
      commitLoop da dd (d :: rest) b dups
      = ([EvNext d; EvAddKey d], Returned st b' dups)).
Proof.
  intros Huniq Hign Hadd Hcode da dd dups'.
  assert (Hda : da = false).
  { unfold da, dupsAllowed_of. by rewrite Huniq, Hign. }
  split; [|split].
  - intros -> Hsize.
    apply commitLoop_cons_Continues.
    by apply (commitStep_dup_dropped _ _ _ _ st).
  - intros -> Hsize.
    apply commitLoop_cons_Returned.
    by apply (commitStep_dup_too_many _ _ _ _ st).
  - intros ->. rewrite Hda.
    apply commitLoop_cons_Returned.
    by apply commitStep_dup_rejected.
Qed.

(** C3. When, with drop-duplicates on, the duplicate reported for the
    entry [d] makes the set hold more than [kMaxDupsToStore] locations,
    [commit] returns a status whose code is [InternalError], which is
    not [DuplicateKey]; it returns at that entry: the entries after it
    are not asked for, [finished] is not called and the builder's
    [commit] is not called. *)
Theorem commit_too_many_dups this dupsToDrop mi pre d rest evs b dups st b' :
  sorter_done (_sorterComparison this) (_sorter this) = pre ++ d :: rest ->
  commitLoop (dupsAllowed_of (_real this)) (dropDups_of (_real this)) pre
    (getBulkBuilder (dupsAllowed_of (_real this))) dupsToDrop
  = (evs, Continues b dups) ->
  addKey b d.1 d.2 = (st, b') ->
  code st = DuplicateKey ->
  dropDups_of (_real this) = true ->
  kMaxDupsToStore < Z.of_nat (size ({[ d.2 ]} ∪ dups)) ->
  let r := commit this dupsToDrop mi in
  cr_status r = tooManyDups
  /\ code (cr_status r) = InternalError
  /\ code (cr_status r) <> DuplicateKey
  /\ isOK (cr_status r) = false
  /\ cr_dupsToDrop r = {[ d.2 ]} ∪ dups
  /\ cr_builder r = b'
  /\ cr_trace r
     = commit_prologue this ++ (pre ≫= passCalls) ++ [EvNext d; EvAddKey d]
  /\ countNext (cr_trace r) = S (length pre)
  /\ countFinished (cr_trace r) = 0%nat
  /\ forall mi', EvBuilderCommit mi' ∉ cr_trace r.
Proof.
  intros Hsort Hpre Hadd Hcode Hdd Hsize r.
  assert (Hr : r = mkCommitResult tooManyDups ({[ d.2 ]} ∪ dups) b'
                 (commit_prologue this ++ (pre ≫= passCalls)
                  ++ [EvNext d; EvAddKey d])).
  { unfold r. eapply commit_returns_at; [done|done|].
    rewrite Hdd. by apply (commitStep_dup_too_many _ _ _ _ st). }
  rewrite Hr. simpl.
  destruct (returned_trace_facts this pre d) as (T1 & _ & T3 & T4).
  repeat (split; [done|]). done.
Qed.

(** C4. When [addKey] returns, for the entry [d], a status that is not OK
    and whose code is not [DuplicateKey], [commit] returns that status
    itself; the set of duplicates is as it was before the entry, the
    entries after [d] are not asked for, and neither [finished] nor the
    builder's [commit] is called. *)
Theorem commit_fatal_error_propagates
    this dupsToDrop mi pre d rest evs b dups st b' :
  sorter_done (_sorterComparison this) (_sorter this) = pre ++ d :: rest ->
  commitLoop (dupsAllowed_of (_real this)) (dropDups_of (_real this)) pre
    (getBulkBuilder (dupsAllowed_of (_real this))) dupsToDrop
  = (evs, Continues b dups) ->
  addKey b d.1 d.2 = (st, b') ->
  isOK st = false ->
  code st <> DuplicateKey ->
  let r := commit this dupsToDrop mi in
  cr_status r = st
  /\ cr_dupsToDrop r = dups
  /\ cr_builder r = b'
  /\ cr_trace r
     = commit_prologue this ++ (pre ≫= passCalls) ++ [EvNext d; EvAddKey d]
  /\ countNext (cr_trace r) = S (length pre)
  /\ countFinished (cr_trace r) = 0%nat
  /\ forall mi', EvBuilderCommit mi' ∉ cr_trace r.
Proof.
  intros Hsort Hpre Hadd Hok Hcode r.
  assert (Hr : r = mkCommitResult st dups b'
                 (commit_prologue this ++ (pre ≫= passCalls)
                  ++ [EvNext d; EvAddKey d])).
  { unfold r. eapply commit_returns_at; [done|done|].
    by apply commitStep_fatal. }
  rewrite Hr. simpl.
  destruct (returned_trace_facts this pre d) as (T1 & _ & T3 & T4).
  repeat (split; [done|]). done.
Qed.

(** *** The multikey flag *)

Lemma insert_loop_isMultiKey keys loc this :
  _isMultiKey (insert_loop keys loc this) = _isMultiKey this.
Proof.
  revert this. induction keys as [|k keys IH]; intros this; simpl; [done|].
  by rewrite IH.
Qed.

Lemma insert_isMultiKey this obj loc numInserted :
  _isMultiKey (insert this obj loc numInserted).1.2
  = _isMultiKey this || (1 <? Z.of_nat (length (getKeys obj))).
Proof. unfold insert. simpl. by rewrite insert_loop_isMultiKey. Qed.

Lemma insert_all_isMultiKey docs this :
  _isMultiKey (insert_all docs this)
  = _isMultiKey this
    || existsb (fun doc => 1 <? Z.of_nat (length (getKeys doc.1))) docs.
Proof.
  revert this. induction docs as [|doc docs IH]; intros this.
  - simpl. by rewrite orb_false_r.
  - change (insert_all (doc :: docs) this)
      with (insert_all docs (insert this doc.1 doc.2 None).1.2).
    rewrite IH, insert_isMultiKey. simpl. by rewrite orb_assoc.
Qed.

Lemma commit_trace_prologue this dupsToDrop mi :
  exists tr, cr_trace (commit this dupsToDrop mi)
             = commit_prologue this ++ tr.
Proof.
  unfold commit.
  destruct (commitLoop _ _ _ _ _) as [evs [b dups|st b dups]].
  - destruct (builder_commit b mi) as [n b2]. by eexists.
  - by eexists.
Qed.

(** C5. The multikey flag is false after construction; an [insert] sets
    it to its old value or-ed with "the document has more than one key",
    so an [insert] of a document with more than one key makes it true
    and no [insert] makes a true flag false (whatever the later
    documents are); and [commit] on a true flag calls [setMultikey]
    first, before it asks the sorter for the stream of entries. *)
Theorem multikey_flag_monotonic
    real descriptor this0 docs1 doc docs2 dupsToDrop mi :
  BtreeBasedBulkAccessMethod_new real descriptor = Returns this0 ->
  (1 < length (getKeys doc.1))%nat ->
  _isMultiKey this0 = false
  /\ (forall this obj loc numInserted,
        _isMultiKey (insert this obj loc numInserted).1.2
        = _isMultiKey this || (1 <? Z.of_nat (length (getKeys obj))))
  /\ (forall this obj loc numInserted,
        _isMultiKey this = true ->
        _isMultiKey (insert this obj loc numInserted).1.2 = true)
  /\ _isMultiKey (insert_all (docs1 ++ [doc]) this0) = true
  /\ _isMultiKey (insert_all (docs1 ++ doc :: docs2) this0) = true
  /\ exists tr,
       cr_trace (commit (insert_all (docs1 ++ doc :: docs2) this0)
                   dupsToDrop mi)
       = EvSetMultikey :: EvSorterDone :: tr.
Proof.
  intros Hnew Hmulti.
  assert (Hdoc : (1 <? Z.of_nat (length (getKeys doc.1))) = true)
    by (apply Z.ltb_lt; lia).
  assert (Hall : forall docs2',
            _isMultiKey (insert_all (docs1 ++ doc :: docs2') this0) = true).
  { intros docs2'. rewrite insert_all_isMultiKey, existsb_app. simpl.
    rewrite Hdoc. simpl. by rewrite !orb_true_r. }
  split; [|split; [|split; [|split; [|split]]]].
  - unfold BtreeBasedBulkAccessMethod_new in Hnew.
    destruct (BtreeExternalSortComparison_new _ _) as [c| | | |];
      simpl in Hnew; try discriminate.
    by inversion Hnew.
  - apply insert_isMultiKey.
  - intros this obj loc numInserted Hthis.
    by rewrite insert_isMultiKey, Hthis.
  - apply Hall.
  - apply Hall.
  - destruct (commit_trace_prologue
                (insert_all (docs1 ++ doc :: docs2) this0) dupsToDrop mi)
      as [tr Htr].
    rewrite Htr. unfold commit_prologue. rewrite Hall. simpl. by eexists.
Qed.

(** *** After the loop *)

(** C6. When the loop has run to its end with drop-duplicates off and
    the builder's [commit] reports a count that differs from the number
    of keys [insert] counted, [commit] still returns OK; what the
    mismatch causes is the warning, the last call made. *)
Theorem commit_count_mismatch_is_warning this dupsToDrop mi evs b dups :
  commitLoop (dupsAllowed_of (_real this)) (dropDups_of (_real this))
    (sorter_done (_sorterComparison this) (_sorter this))
    (getBulkBuilder (dupsAllowed_of (_real this))) dupsToDrop
  = (evs, Continues b dups) ->
  dropDups_of (_real this) = false ->
  (builder_commit b mi).1 <> _keysInserted this ->
  let r := commit this dupsToDrop mi in
  cr_status r = Status_OK
  /\ isOK (cr_status r) = true
  /\ cr_dupsToDrop r = dups
  /\ exists tr, cr_trace r = tr ++ [EvBuilderCommit mi; EvWarning].
Proof.
  intros Hloop Hdd Hne r. unfold r.
  rewrite (commit_Continues _ _ _ _ _ _ Hloop). simpl.
  repeat (split; [done|]).
  unfold commit_epilogue. rewrite Hdd. simpl.
  destruct (_ =? _) eqn:E; [apply Z.eqb_eq in E; done|]. simpl.
  exists (commit_prologue this ++ evs
          ++ [EvFinished;
              EvSetMessage "Index Bulk Build: (3/3) btree-middle";
              EvLog "done building bottom layer, going to commit"]).
  by rewrite <- !app_assoc.
Qed.

(** *** The progress meter *)

(** C8. On the successful path ([commit] returns OK) the calls of the
    loop are, for each entry of the sorted stream in turn, [next],
    [addKey] and [hit]: one [hit] per entry consumed, dropped
    duplicates included; [finished] is called once, after the last of
    them, and no entry is consumed after it. *)
Theorem progress_meter_calls this dupsToDrop mi :
  let i := sorter_done (_sorterComparison this) (_sorter this) in
  let r := commit this dupsToDrop mi in
  isOK (cr_status r) = true ->
  (exists t, cr_trace r
             = (commit_prologue this ++ (i ≫= passCalls))
               ++ EvFinished :: t
             /\ countNext t = 0%nat /\ countHit t = 0%nat
             /\ countFinished t = 0%nat)
  /\ countNext (cr_trace r) = length i
  /\ countHit (cr_trace r) = length i
  /\ countFinished (cr_trace r) = 1%nat.
Proof.
  intros i r Hok. unfold r, i in *. clear r i.
  destruct (commitLoop (dupsAllowed_of (_real this))
              (dropDups_of (_real this))
              (sorter_done (_sorterComparison this) (_sorter this))
              (getBulkBuilder (dupsAllowed_of (_real this))) dupsToDrop)
    as [evs [b dups|st b dups]] eqn:Hloop.
  - rewrite (commit_Continues _ _ _ _ _ _ Hloop). simpl.
    rewrite (commitLoop_Continues_calls _ _ _ _ _ _ _ _ Hloop).
    set (i := sorter_done _ _).
    destruct (counts_prologue this) as (P1 & P2 & P3).
    destruct (counts_passCalls i) as (C1 & C2 & C3).
    destruct (counts_epilogue this mi (builder_commit b mi).1)
      as (E1 & E2 & E3).
    split.
    + unfold commit_epilogue. simpl. eexists. split.
      * by rewrite <- app_assoc.
      * by destruct (negb _ && negb _).
    + rewrite !countNext_app, !countHit_app, !countFinished_app.
      rewrite P1, P2, P3, C1, C2, C3, E1, E2, E3. lia.
  - rewrite (commit_Returned _ _ _ _ _ _ _ Hloop) in Hok. simpl in Hok.
    apply commitLoop_Returned_calls in Hloop as [Hst _]. congruence.
Qed.

(** On a failing path the entry at which [commit] returns was consumed
    but gets no [hit], and [finished] is not called. *)
Lemma progress_meter_calls_on_failure this dupsToDrop mi :
  let r := commit this dupsToDrop mi in
  isOK (cr_status r) = false ->
  countNext (cr_trace r) = S (countHit (cr_trace r))
  /\ countFinished (cr_trace r) = 0%nat.
Proof.
  intros r Hok. unfold r in *. clear r.
  destruct (commitLoop (dupsAllowed_of (_real this))
              (dropDups_of (_real this))
              (sorter_done (_sorterComparison this) (_sorter this))
              (getBulkBuilder (dupsAllowed_of (_real this))) dupsToDrop)
    as [evs [b dups|st b dups]] eqn:Hloop.
  - by rewrite (commit_Continues _ _ _ _ _ _ Hloop) in Hok.
  - rewrite (commit_Returned _ _ _ _ _ _ _ Hloop). simpl.
    apply commitLoop_Returned_calls
      in Hloop as (_ & pre & d & rest & _ & ->).
    destruct (returned_trace_facts this pre d) as (T1 & T2 & T3 & _).
    simpl in T1, T2, T3. by rewrite T1, T2, T3.
Qed.

End Loop.

(** *** The comparator *)

Section ThreeWayFacts.
Context {A : Type} (cmp : A -> A -> Z) `{!ThreeWay cmp}.

Lemma threeWay_swap_gt x y : 0 < cmp x y <-> cmp y x < 0.
Proof. by rewrite threeWay_swap. Qed.

Lemma threeWay_eq_sym x y : cmp x y = 0 -> cmp y x = 0.
Proof.
  intros H. pose proof (threeWay_swap x y). pose proof (threeWay_swap y x).
  lia.
Qed.

Lemma threeWay_refl x : cmp x x = 0.
Proof. pose proof (threeWay_swap x x). lia. Qed.

Lemma threeWay_eq_trans x y z : cmp x y = 0 -> cmp y z = 0 -> cmp x z = 0.
Proof.
  intros Hxy Hyz.
  pose proof (threeWay_eq_sym _ _ Hxy) as Hyx.
  pose proof (threeWay_eq_sym _ _ Hyz) as Hzy.
  assert (cmp x z <= 0) by (apply (threeWay_trans x y z); lia).
  assert (cmp z x <= 0) by (apply (threeWay_trans z y x); lia).
  pose proof (threeWay_swap x z). pose proof (threeWay_swap z x). lia.
Qed.

(** "Less" composes with "not greater" on either side. *)
Lemma threeWay_lt_le_trans x y z : cmp x y < 0 -> cmp y z <= 0 -> cmp x z < 0.
Proof.
  intros Hxy Hyz.
  assert (Hxz : cmp x z <= 0) by (apply (threeWay_trans x y z); lia).
  destruct (Z.eq_dec (cmp x z) 0) as [E|]; [|lia].
  pose proof (threeWay_eq_sym _ _ E) as Hzx.
  assert (cmp y x <= 0) by (apply (threeWay_trans y z x); lia).
  pose proof (threeWay_swap x y). lia.
Qed.

Lemma threeWay_le_lt_trans x y z : cmp x y <= 0 -> cmp y z < 0 -> cmp x z < 0.
Proof.
  intros Hxy Hyz.
  assert (Hxz : cmp x z <= 0) by (apply (threeWay_trans x y z); lia).
  destruct (Z.eq_dec (cmp x z) 0) as [E|]; [|lia].
  pose proof (threeWay_eq_sym _ _ E) as Hzx.
  assert (cmp z y <= 0) by (apply (threeWay_trans z x y); lia).
  pose proof (threeWay_swap y z). lia.
Qed.
End ThreeWayFacts.

Section Comparator.
Context {cmps : Comparisons} {contract : OrderingContract cmps}.

#[local] Instance keyCompare_threeWay c : ThreeWay (keyCompare c).
Proof.
  unfold keyCompare. destruct (_version c =? 1).
  - apply (woCompare_threeWay (_ordering c)).
  - apply (oldCompare_threeWay (_ordering c)).
Qed.

#[local] Existing Instance DiskLoc_compare_threeWay.

Lemma compare_keys_differ c l r :
  keyCompare c l.1 r.1 <> 0 -> compare c l r = keyCompare c l.1 r.1.
Proof.
  intros H. unfold compare. simpl.
  destruct (keyCompare c l.1 r.1 =? 0) eqn:E; [|done].
  by apply Z.eqb_eq in E.
Qed.

Lemma compare_keys_equal c l r :
  keyCompare c l.1 r.1 = 0 -> compare c l r = DiskLoc_compare l.2 r.2.
Proof. intros H. unfold compare. simpl. by rewrite H. Qed.

Lemma compare_eq_0 c l r :
  compare c l r = 0 <-> keyCompare c l.1 r.1 = 0 /\ l.2 = r.2.
Proof.
  destruct (Z.eq_dec (keyCompare c l.1 r.1) 0) as [E|E].
  - rewrite (compare_keys_equal _ _ _ E). split.
    + intros H. split; [done|]. by apply DiskLoc_compare_eq.
    + intros [_ ->]. apply (threeWay_refl DiskLoc_compare).
  - rewrite (compare_keys_differ _ _ _ E). tauto.
Qed.

#[local] Instance compare_threeWay c : ThreeWay (compare c).
Proof.
  split.
  - intros x y.
    destruct (Z.eq_dec (keyCompare c x.1 y.1) 0) as [E|E].
    + pose proof (threeWay_eq_sym (keyCompare c) _ _ E) as E'.
      rewrite (compare_keys_equal _ _ _ E), (compare_keys_equal _ _ _ E').
      apply threeWay_swap.
    + assert (E' : keyCompare c y.1 x.1 <> 0).
      { intros H. by apply (threeWay_eq_sym (keyCompare c)) in H. }
      rewrite (compare_keys_differ _ _ _ E), (compare_keys_differ _ _ _ E').
      apply threeWay_swap.
  - intros x y z Hxy Hyz.
    destruct (Z.eq_dec (keyCompare c x.1 y.1) 0) as [Exy|Exy];
      destruct (Z.eq_dec (keyCompare c y.1 z.1) 0) as [Eyz|Eyz].
    + rewrite (compare_keys_equal _ _ _ Exy) in Hxy.
      rewrite (compare_keys_equal _ _ _ Eyz) in Hyz.
      rewrite (compare_keys_equal c x z)
        by (by apply (threeWay_eq_trans (keyCompare c) _ y.1)).
      by apply (threeWay_trans x.2 y.2 z.2).
    + rewrite (compare_keys_differ _ _ _ Eyz) in Hyz.
      assert (keyCompare c x.1 z.1 < 0).
      { apply (threeWay_le_lt_trans (keyCompare c) _ y.1); lia. }
      rewrite compare_keys_differ; lia.
    + rewrite (compare_keys_differ _ _ _ Exy) in Hxy.
      assert (keyCompare c x.1 z.1 < 0).
      { apply (threeWay_lt_le_trans (keyCompare c) _ y.1); lia. }
      rewrite compare_keys_differ; lia.
    + rewrite (compare_keys_differ _ _ _ Exy) in Hxy.
      rewrite (compare_keys_differ _ _ _ Eyz) in Hyz.
      assert (keyCompare c x.1 z.1 < 0).
      { apply (threeWay_lt_le_trans (keyCompare c) _ y.1); lia. }
      rewrite compare_keys_differ; lia.
Qed.

(** C2. The comparator of a bulk build: its version is 1 or 0 and
    fixed with its ordering at construction; it compares the keys with
    [woCompare], field names not considered, for version 1 and with
    [oldCompare] for version 0; it returns that result when it is not
    zero and the comparison of the two locations when it is, so that
    two entries with distinct locations never compare equal.  "Comes
    before" is a strict order, any two entries are ordered one way or
    the other or compare equal, and entries with distinct locations are
    ordered one way or the other. *)
Theorem comparison_strict_total_order keyPattern v c :
  BtreeExternalSortComparison_new keyPattern v = Returns c ->
  (v = 1 \/ v = 0)
  /\ _version c = v /\ _ordering c = Ordering_make keyPattern
  /\ (v = 1 -> forall l r,
        keyCompare c l r = woCompare l r (Ordering_make keyPattern) false)
  /\ (v = 0 -> forall l r,
        keyCompare c l r = oldCompare l r (Ordering_make keyPattern))
  /\ (forall l r, keyCompare c l.1 r.1 <> 0 ->
        compare c l r = keyCompare c l.1 r.1)
  /\ (forall l r, keyCompare c l.1 r.1 = 0 ->
        compare c l r = DiskLoc_compare l.2 r.2)
  /\ (forall l r, l.2 <> r.2 -> compare c l r <> 0)
  /\ (forall l r, compare c l r = 0 <->
        keyCompare c l.1 r.1 = 0 /\ l.2 = r.2)
  /\ StrictOrder (before c)
  /\ (forall l r, before c l r \/ compare c l r = 0 \/ before c r l)
  /\ (forall l r, l.2 <> r.2 -> before c l r \/ before c r l).
Proof.
  intros Hnew. unfold BtreeExternalSortComparison_new, invariant in Hnew.
  destruct ((v =? 1) || (v =? 0)) eqn:Hv; simpl in Hnew; [|discriminate].
  inversion Hnew as [Hc]. clear Hnew Hc c.
  set (c := mkComparison (Ordering_make keyPattern) v).
  assert (Hv' : v = 1 \/ v = 0) by lia.
  assert (Htri : forall l r,
             before c l r \/ compare c l r = 0 \/ before c r l).
  { intros l r. unfold before.
    pose proof (threeWay_swap (cmp := compare c) r l). lia. }
  split; [done|]. split; [done|]. split; [done|].
  split.
  { intros Hv1 l r. unfold keyCompare, c. simpl. by rewrite Hv1. }
  split.
  { intros Hv0 l r. unfold keyCompare, c. simpl. by rewrite Hv0. }
  split; [apply compare_keys_differ|].
  split; [apply compare_keys_equal|].
  split.
  { intros l r Hne H. apply compare_eq_0 in H. tauto. }
  split; [apply compare_eq_0|].
  split.
  { split.
    - intros x Hx. unfold before in Hx.
      pose proof (threeWay_refl (compare c) x). lia.
    - intros x y z Hxy Hyz. unfold before in *.
      apply (threeWay_lt_le_trans (compare c) x y z); lia. }
  split; [done|].
  intros l r Hne. destruct (Htri l r) as [H|[H|H]]; [by left| |by right].
  apply compare_eq_0 in H. tauto.
Qed.
End Comparator.

(** *** Duplicate accounting, on the builder of the spec *)

Section Accounting.
Context {cmps : Comparisons} {env : Environment}.
Variable sameKey : BSONObj -> BSONObj -> bool.
Variable tooLarge : BSONObj -> bool.
Hypothesis sameKey_sym : forall x y, sameKey x y = true -> sameKey y x = true.
Hypothesis sameKey_trans :
  forall x y z, sameKey x y = true -> sameKey y z = true -> sameKey x z = true.
Variable key : BSONObj.

#[local] Instance accounting_bi : BuilderInterface | 0 :=
  specBuilder sameKey tooLarge.

Abbreviation inGroup := (hasKey sameKey key).

(** What the builder of a unique index answers. *)
Lemma spec_addKey_cases (b : SpecBuilder) (e : Data) :
  sb_dupsAllowed b = false ->
  (tooLarge e.1 = true /\ addKey b e.1 e.2 = (Status_OK, b))
  \/ (tooLarge e.1 = false
      /\ existsb (fun x : Data => sameKey x.1 e.1) (sb_keys b) = true
      /\ addKey b e.1 e.2 = (mkStatus DuplicateKey "duplicate key", b))
  \/ (tooLarge e.1 = false
      /\ existsb (fun x : Data => sameKey x.1 e.1) (sb_keys b) = false
      /\ addKey b e.1 e.2
         = (Status_OK, mkSpecBuilder false (sb_keys b ++ [e]))).
Proof.
  intros Hda. simpl. unfold spec_addKey. rewrite Hda. simpl.
  destruct (tooLarge e.1); [by left|].
  destruct (existsb _ _); [by right; left|].
  right; right. by destruct e.
Qed.

(** For an entry of the group, the builder has a colliding key exactly
    when it has a key of the group. *)
Lemma existsb_inGroup (keys : list Data) (e : Data) :
  inGroup e ->
  existsb (fun x : Data => sameKey x.1 e.1) keys = true
  <-> filter inGroup keys <> [].
Proof.
  intros He. rewrite existsb_exists. split.
  - intros (x & Hin & Hx) Hnil.
    apply list_elem_of_In in Hin.
    apply (filter_nil_not_elem_of _ _ x Hnil); [|done].
    unfold hasKey in *. eauto.
  - intros Hne. destruct (filter inGroup keys) as [|x l] eqn:Hf; [done|].
    assert (Hx : x ∈ filter inGroup keys) by (rewrite Hf; left).
    apply list_elem_of_filter in Hx as [Hx Hin].
    exists x. split; [by apply list_elem_of_In|].
    unfold hasKey in *. eauto.
Qed.

(** The loop on the builder of a unique index, drop-duplicates on: of
    the entries of the group one key is in the structure, the first of
    them unless the builder had one already, and the locations of the
    others are in the set. *)
Lemma spec_loop_accounting i :
  forall (b : SpecBuilder) dups evs (b' : SpecBuilder) dups',
    sb_dupsAllowed b = false ->
    Forall (fun e : Data => inGroup e -> tooLarge e.1 = false) i ->
    commitLoop false true i b dups = (evs, Continues b' dups') ->
    dups ⊆ dups'
    /\ (filter inGroup (sb_keys b) <> [] ->
        filter inGroup (sb_keys b') = filter inGroup (sb_keys b)
        /\ Forall (fun e : Data => e.2 ∈ dups') (filter inGroup i))
    /\ (filter inGroup (sb_keys b) = [] ->
        match filter inGroup i with
        | [] => filter inGroup (sb_keys b') = []
        | kept :: others =>
            filter inGroup (sb_keys b') = [kept]
            /\ Forall (fun e : Data => e.2 ∈ dups') others
        end).
Proof.
  induction i as [|e i IH]; intros b dups evs b' dups' Hda Hsize Hloop.
  - simpl in Hloop. inversion Hloop; subst.
    split; [done|]. split; [by intros _; split; [|constructor]|done].
  - apply Forall_cons in Hsize as [Hlarge Hsize].
    destruct (spec_addKey_cases b e Hda)
      as [(Hbig & Hadd)|[(Hbig & Hex & Hadd)|(Hbig & Hex & Hadd)]].
    + (* rejected for its size: nothing changes *)
      assert (Hnot : ~ inGroup e) by (intros He; rewrite Hlarge in Hbig; done).
      rewrite (commitLoop_cons_Continues (bi := accounting_bi) _ _ _ _ _ _ _ _ _
                 (commitStep_ok (bi := accounting_bi) false true e b dups _ _ Hadd eq_refl))
        in Hloop.
      destruct (commitLoop (bi := accounting_bi) false true i b dups) as [evs2 r2] eqn:Hrest.
      simpl in Hloop. inversion Hloop; subst.
      rewrite (filter_cons_False _ _ _ Hnot).
      by apply (IH _ _ _ _ _ Hda Hsize Hrest).
    + (* reported as a duplicate *)
      destruct (decide (Z.of_nat (size ({[ e.2 ]} ∪ dups))
                        <= kMaxDupsToStore)) as [Hle|Hgt].
      2:{ rewrite (commitLoop_cons_Returned (bi := accounting_bi) _ _ _ _ _ _ _ _ _ _
                     (commitStep_dup_too_many (bi := accounting_bi) false e b dups _ _ Hadd
                        eq_refl ltac:(lia))) in Hloop.
          discriminate. }
      rewrite (commitLoop_cons_Continues (bi := accounting_bi) _ _ _ _ _ _ _ _ _
                 (commitStep_dup_dropped (bi := accounting_bi) false e b dups _ _ Hadd
                    eq_refl Hle)) in Hloop.
      destruct (commitLoop (bi := accounting_bi) false true i b ({[ e.2 ]} ∪ dups))
        as [evs2 r2] eqn:Hrest.
      simpl in Hloop. inversion Hloop; subst.
      destruct (IH _ _ _ _ _ Hda Hsize Hrest) as (Hsub & Hsome & Hnone).
      split; [by etrans; [apply union_subseteq_r|]|].
      destruct (decide (inGroup e)) as [He|He].
      * rewrite (filter_cons_True _ _ _ He).
        apply (existsb_inGroup _ _ He) in Hex.
        split; [|done].
        intros _. destruct (Hsome Hex) as [Hkeys Hall].
        split; [done|]. constructor; [|done].
        by apply Hsub, elem_of_union_l, elem_of_singleton.
      * by rewrite (filter_cons_False _ _ _ He).
    + (* appended to the structure *)
      set (b1 := mkSpecBuilder false (sb_keys b ++ [e])) in *.
      rewrite (commitLoop_cons_Continues (bi := accounting_bi) _ _ _ _ _ _ _ _ _
                 (commitStep_ok (bi := accounting_bi) false true e b dups _ _ Hadd eq_refl))
        in Hloop.
      destruct (commitLoop (bi := accounting_bi) false true i b1 dups) as [evs2 r2] eqn:Hrest.
      simpl in Hloop. inversion Hloop; subst.
      destruct (IH b1 _ _ _ _ eq_refl Hsize Hrest) as (Hsub & Hsome & Hnone).
      split; [done|].
      unfold b1 in Hsome, Hnone. simpl in Hsome, Hnone.
      rewrite filter_app in Hsome, Hnone.
      destruct (decide (inGroup e)) as [He|He].
      * rewrite (filter_cons_True _ _ _ He).
        rewrite (filter_cons_True _ _ _ He), filter_nil in Hsome.
        assert (Hempty : filter inGroup (sb_keys b) = []).
        { destruct (filter inGroup (sb_keys b)) as [|x l] eqn:Hf; [done|].
          assert (Hne : filter inGroup (sb_keys b) <> [])
            by (by rewrite Hf).
          apply (existsb_inGroup _ _ He) in Hne. congruence. }
        split; [by rewrite Hempty|]. intros _.
        rewrite Hempty in Hsome. simpl in Hsome.
        by apply Hsome.
      * rewrite (filter_cons_False _ _ _ He).
        rewrite (filter_cons_False _ _ _ He), filter_nil, app_nil_r
          in Hsome, Hnone.
        done.
Qed.

(** C7 (as amended). For a unique index whose uniqueness the build was
    not told to ignore, with drop-duplicates on: when the documents
    inserted gave N >= 1 entries with the same key, at N distinct
    locations, none of them rejected for its size, and [commit] returns
    OK, then exactly one of those entries is in the structure and the
    locations of the other N - 1, which are N - 1 distinct locations,
    are in the set of duplicates handed back. *)
Theorem duplicate_accounting this dupsToDrop mi :
  unique (_real this) = true ->
  shouldIgnoreUniqueIndex (_real this) = false ->
  dropDups_of (_real this) = true ->
  let group := filter inGroup (_sorter this) in
  let r := commit this dupsToDrop mi in
  (1 <= length group)%nat ->
  NoDup group.*2 ->
  Forall (fun e : Data => tooLarge e.1 = false) group ->
  isOK (cr_status r) = true ->
  exists kept others,
    group ≡ₚ kept :: others
    /\ length others = (length group - 1)%nat
    /\ filter inGroup (sb_keys (cr_builder r)) = [kept]
    /\ Forall (fun e : Data => e.2 ∈ cr_dupsToDrop r) others
    /\ size (list_to_set others.*2 : gset DiskLoc)
       = (length group - 1)%nat.
Proof.
  intros Huniq Hign Hdd group r Hn Hlocs Hsmall Hok.
  assert (Hda : dupsAllowed_of (_real this) = false).
  { unfold dupsAllowed_of. by rewrite Huniq, Hign. }
  set (s := sorter_done (_sorterComparison this) (_sorter this)).
  assert (Hperm : filter inGroup s ≡ₚ group).
  { unfold group, s, sorter_done. by rewrite merge_sort_Permutation. }
  unfold r in *. clear r.
  destruct (commitLoop (bi := accounting_bi)
              (dupsAllowed_of (_real this)) (dropDups_of (_real this))
              s (getBulkBuilder (dupsAllowed_of (_real this))) dupsToDrop)
    as [evs [b' dups'|st b' dups']] eqn:Hloop.
  2:{ rewrite (commit_Returned _ _ _ _ _ _ _ Hloop) in Hok. simpl in Hok.
      apply commitLoop_Returned_calls in Hloop as [Hst _]. congruence. }
  rewrite (commit_Continues _ _ _ _ _ _ Hloop). simpl.
  rewrite Hda, Hdd in Hloop.
  assert (Hall : Forall (fun e : Data => inGroup e -> tooLarge e.1 = false) s).
  { apply Forall_forall. intros e He Hin.
    assert (Hg : e ∈ group).
    { rewrite <- Hperm. by apply list_elem_of_filter. }
    by apply (proj1 (Forall_forall _ _) Hsmall). }
  destruct (spec_loop_accounting s (spec_getBulkBuilder false) dupsToDrop
              evs b' dups' eq_refl Hall Hloop) as (_ & _ & Hnone).
  specialize (Hnone eq_refl).
  destruct (filter inGroup s) as [|kept others] eqn:Hf.
  { apply Permutation_length in Hperm. simpl in Hperm. lia. }
  destruct Hnone as [Hkept Hothers].
  assert (Hlen : length others = (length group - 1)%nat).
  { apply Permutation_length in Hperm. simpl in Hperm. lia. }
  exists kept, others.
  split; [done|]. split; [done|]. split; [done|]. split; [done|].
  rewrite size_list_to_set.
  - by rewrite length_fmap.
  - rewrite <- Hperm in Hlocs. rewrite fmap_cons in Hlocs.
    by apply NoDup_cons in Hlocs as [_ ?].
Qed.

End Accounting.

(** *** The examples satisfy what the theorems ask *)

Lemma sign_of_compare_swap (x y : Z) :
  sign_of (x ?= y) < 0 <-> 0 < sign_of (y ?= x).
Proof.
  destruct (Z.compare_spec x y), (Z.compare_spec y x); simpl; lia.
Qed.

Lemma sign_of_compare_le (x y : Z) : sign_of (x ?= y) <= 0 <-> x <= y.
Proof. destruct (Z.compare_spec x y); simpl; lia. Qed.

Lemma ex_DiskLoc_compare_le l r :
  ex_DiskLoc_compare l r <= 0
  <-> a l < a r \/ (a l = a r /\ getOfs l <= getOfs r).
Proof.
  unfold ex_DiskLoc_compare.
  destruct (Z.compare_spec (a l) (a r)),
    (Z.compare_spec (getOfs l) (getOfs r)); simpl; lia.
Qed.

Lemma ex_orderingContract : OrderingContract ex_cmps.
Proof.
  split.
  - intros o. split; simpl.
    + intros x y. apply sign_of_compare_swap.
    + intros x y z. rewrite !sign_of_compare_le. lia.
  - intros o. split; simpl.
    + intros x y. apply sign_of_compare_swap.
    + intros x y z. rewrite !sign_of_compare_le. lia.
  - split; simpl.
    + intros x y. unfold ex_DiskLoc_compare.
      destruct (Z.compare_spec (a x) (a y)), (Z.compare_spec (a y) (a x)),
        (Z.compare_spec (getOfs x) (getOfs y)),
        (Z.compare_spec (getOfs y) (getOfs x)); simpl; lia.
    + intros x y z. rewrite !ex_DiskLoc_compare_le. lia.
  - simpl. intros [la lo] [ra ro]. unfold ex_DiskLoc_compare. simpl.
    destruct (Z.compare_spec la ra), (Z.compare_spec lo ro);
      simpl; intros; try lia. by subst.
Qed.

Lemma ex_sameKey_sym x y : ex_sameKey x y = true -> ex_sameKey y x = true.
Proof. unfold ex_sameKey. lia. Qed.

Lemma ex_sameKey_trans x y z :
  ex_sameKey x y = true -> ex_sameKey y z = true -> ex_sameKey x z = true.
Proof. unfold ex_sameKey. lia. Qed.

(** The set [manyDups] holds [kMaxDupsToStore] locations; a location of
    another file is not one of them. *)
Lemma NoDup_manyLocs n : NoDup (manyLocs n).
Proof.
  unfold manyLocs. apply NoDup_fmap_2_strong; [|apply NoDup_seq].
  intros x y _ _ H. unfold ex_loc in H. inversion H. lia.
Qed.

Lemma size_manyDups : Z.of_nat (size manyDups) = kMaxDupsToStore.
Proof.
  unfold manyDups. rewrite size_list_to_set by apply NoDup_manyLocs.
  unfold manyLocs. rewrite length_fmap, length_seq.
  apply Z2Nat.id. unfold kMaxDupsToStore. lia.
Qed.

Lemma size_manyDups_more (loc : DiskLoc) :
  a loc <> 0 ->
  Z.of_nat (size ({[ loc ]} ∪ manyDups)) = kMaxDupsToStore + 1.
Proof.
  intros Hloc. rewrite size_union.
  - rewrite size_singleton, Nat2Z.inj_add, size_manyDups. lia.
  - apply disjoint_singleton_l. unfold manyDups.
    rewrite elem_of_list_to_set. unfold manyLocs.
    rewrite list_elem_of_fmap. intros (i & -> & _). by apply Hloc.
Qed.

(** *** The theorems at the examples *)

(** The hypotheses of [commitLoop_duplicate_on_unique_index] hold for the
    entry [ex_d2] after [ex_d1] went in; with an empty set the loop goes
    on to [ex_d3]. *)
Lemma commitLoop_duplicate_on_unique_index_witness :
  unique (ex_descriptor true true) = true
  /\ shouldIgnoreUniqueIndex (Environment := ex_env) (ex_descriptor true true)
     = false
  /\ addKey (BuilderInterface := ex_bi) ex_b1 ex_d2.1 ex_d2.2
     = (mkStatus DuplicateKey "duplicate key", ex_b1)
  /\ Z.of_nat (size ({[ ex_d2.2 ]} ∪ (∅ : gset DiskLoc))) <= kMaxDupsToStore
  /\ commitLoop (bi := ex_bi) false true [ex_d2; ex_d3] ex_b1 ∅
     = (passCalls ex_d2 ++ passCalls ex_d3,
        Continues (bi := ex_bi) (mkSpecBuilder false [ex_d1; ex_d3])
          {[ ex_d2.2 ]}).
Proof.
  assert (Hsize : Z.of_nat (size ({[ ex_d2.2 ]} ∪ (∅ : gset DiskLoc)))
                  <= kMaxDupsToStore) by (vm_compute; discriminate).
  split; [reflexivity|]. split; [reflexivity|]. split; [reflexivity|].
  split; [exact Hsize|].
  destruct (commitLoop_duplicate_on_unique_index (env := ex_env) (bi := ex_bi)
              (ex_descriptor true true) ex_d2 [ex_d3] ex_b1 ∅
              (mkStatus DuplicateKey "duplicate key") ex_b1
              eq_refl eq_refl eq_refl eq_refl) as (Hgo & _ & _).
  etrans; [exact (Hgo eq_refl Hsize)|]. vm_compute. reflexivity.
Defined.

(** C1 as stated fails at the bound.  Three documents, the first two with
    the same key, in a unique index with drop-duplicates on; the caller's
    set holds one million locations of another file.  [addKey] reports a
    duplicate for [ex_d2], its location is added to the set, which then
    holds one million and one, and the loop does not go on to [ex_d3]:
    [commit] returns the internal error, [ex_d3] was never asked for. *)
Lemma drop_duplicates_stops_at_the_bound :
  let this := ex_build ex_env true true ex_docs_778_file1 in
  let r := commit (env := ex_env) (bi := ex_bi) this manyDups false in
  unique (_real this) = true
  /\ shouldIgnoreUniqueIndex (Environment := ex_env) (_real this) = false
  /\ dropDups_of (env := ex_env) (_real this) = true
  /\ sorter_done (_sorterComparison this) (_sorter this)
     = [ex_d1; ex_d2; ex_d3]
  /\ addKey (BuilderInterface := ex_bi) ex_b1 ex_d2.1 ex_d2.2
     = (mkStatus DuplicateKey "duplicate key", ex_b1)
  /\ commitLoop (bi := ex_bi)
       (dupsAllowed_of (env := ex_env) (_real this))
       (dropDups_of (env := ex_env) (_real this))
       [ex_d2; ex_d3] ex_b1 manyDups
     = ([EvNext ex_d2; EvAddKey ex_d2],
        Returned (bi := ex_bi) tooManyDups ex_b1 ({[ ex_d2.2 ]} ∪ manyDups))
  /\ r = mkCommitResult (bi := ex_bi) tooManyDups ({[ ex_d2.2 ]} ∪ manyDups)
           ex_b1
           (commit_prologue (env := ex_env) this ++ passCalls ex_d1
            ++ [EvNext ex_d2; EvAddKey ex_d2])
  /\ EvNext ex_d3 ∉ cr_trace r.
Proof.
  intros this r.
  assert (Hstep : commitStep (bi := ex_bi)
                    (dupsAllowed_of (env := ex_env) (_real this))
                    (dropDups_of (env := ex_env) (_real this))
                    ex_d2 ex_b1 manyDups
                  = ([EvNext ex_d2; EvAddKey ex_d2],
                     Returned (bi := ex_bi) tooManyDups ex_b1
                       ({[ ex_d2.2 ]} ∪ manyDups))).
  { apply (commitStep_dup_too_many (bi := ex_bi) _ ex_d2 ex_b1 manyDups
             (mkStatus DuplicateKey "duplicate key") ex_b1 eq_refl eq_refl).
    rewrite size_manyDups_more by (simpl; lia). lia. }
  assert (Hpre : commitLoop (bi := ex_bi)
                   (dupsAllowed_of (env := ex_env) (_real this))
                   (dropDups_of (env := ex_env) (_real this)) [ex_d1]
                   (getBulkBuilder (BuilderInterface := ex_bi)
                      (dupsAllowed_of (env := ex_env) (_real this)))
                   manyDups
                 = (passCalls ex_d1 ++ [],
                    Continues (bi := ex_bi) ex_b1 manyDups)).
  { apply (commitLoop_cons_Continues (bi := ex_bi) _ _ ex_d1 [] _ manyDups
             (passCalls ex_d1) ex_b1 manyDups).
    by apply (commitStep_ok (bi := ex_bi) _ _ ex_d1 _ manyDups Status_OK). }
  assert (Hr : r = mkCommitResult (bi := ex_bi) tooManyDups
                     ({[ ex_d2.2 ]} ∪ manyDups) ex_b1
                     (commit_prologue (env := ex_env) this ++ passCalls ex_d1
                      ++ [EvNext ex_d2; EvAddKey ex_d2])).
  { apply (commit_returns_at (env := ex_env) (bi := ex_bi) this manyDups false
             [ex_d1] ex_d2 [ex_d3] _ ex_b1 manyDups tooManyDups ex_b1
             ({[ ex_d2.2 ]} ∪ manyDups) eq_refl Hpre Hstep). }
  split; [reflexivity|]. split; [reflexivity|]. split; [reflexivity|].
  split; [reflexivity|]. split; [reflexivity|].
  split; [by apply (commitLoop_cons_Returned (bi := ex_bi))|].
  split; [exact Hr|].
  rewrite Hr. simpl. intros H.
  repeat (apply elem_of_cons in H as [H|H]; [discriminate|]).
  by apply elem_of_nil in H.
Qed.

(** The hypotheses of [comparison_strict_total_order] hold for the
    comparator of the examples, which orders [ex_d1] and [ex_d2], two
    entries with the same key. *)
Lemma comparison_strict_total_order_witness :
  BtreeExternalSortComparison_new (cmps := ex_cmps) [("a", BNumberInt 1)] 1
  = Returns ex_comparison
  /\ OrderingContract ex_cmps
  /\ StrictOrder (before ex_comparison)
  /\ compare ex_comparison ex_d1 ex_d2 <> 0.
Proof.
  assert (Hnew : BtreeExternalSortComparison_new (cmps := ex_cmps)
                   [("a", BNumberInt 1)] 1 = Returns ex_comparison)
    by reflexivity.
  destruct (comparison_strict_total_order (contract := ex_orderingContract)
              [("a", BNumberInt 1)] 1 ex_comparison Hnew)
    as (_ & _ & _ & _ & _ & _ & _ & Hlocs & _ & Hstrict & _).
  split; [exact Hnew|]. split; [exact ex_orderingContract|].
  split; [exact Hstrict|]. apply Hlocs. discriminate.
Defined.

(** The hypotheses of [commit_too_many_dups] hold for two documents with
    the same key in a unique index with drop-duplicates on, when the
    caller's set already holds one million locations. *)
Lemma commit_too_many_dups_witness :
  let this := ex_build ex_env true true ex_docs_77_file1 in
  sorter_done (_sorterComparison this) (_sorter this) = [ex_d1] ++ ex_d2 :: []
  /\ addKey (BuilderInterface := ex_bi) ex_b1 ex_d2.1 ex_d2.2
     = (mkStatus DuplicateKey "duplicate key", ex_b1)
  /\ dropDups_of (env := ex_env) (_real this) = true
  /\ kMaxDupsToStore < Z.of_nat (size ({[ ex_d2.2 ]} ∪ manyDups))
  /\ code (cr_status (commit (env := ex_env) (bi := ex_bi) this manyDups false))
     = InternalError.
Proof.
  intros this.
  assert (Hsort : sorter_done (_sorterComparison this) (_sorter this)
                  = [ex_d1] ++ ex_d2 :: []) by reflexivity.
  assert (Hpre : commitLoop (bi := ex_bi)
                   (dupsAllowed_of (env := ex_env) (_real this))
                   (dropDups_of (env := ex_env) (_real this)) [ex_d1]
                   (getBulkBuilder (BuilderInterface := ex_bi)
                      (dupsAllowed_of (env := ex_env) (_real this)))
                   manyDups
                 = (passCalls ex_d1 ++ [],
                    Continues (bi := ex_bi) ex_b1 manyDups)).
  { apply (commitLoop_cons_Continues (bi := ex_bi) _ _ ex_d1 [] _ manyDups
             (passCalls ex_d1) ex_b1 manyDups).
    by apply (commitStep_ok (bi := ex_bi) _ _ ex_d1 _ manyDups Status_OK). }
  assert (Hsize : kMaxDupsToStore < Z.of_nat (size ({[ ex_d2.2 ]} ∪ manyDups))).
  { rewrite size_manyDups_more by (simpl; lia). lia. }
  split; [exact Hsort|]. split; [reflexivity|]. split; [reflexivity|].
  split; [exact Hsize|].
  apply (commit_too_many_dups (env := ex_env) (bi := ex_bi) this manyDups
           false [ex_d1] ex_d2 [] _ ex_b1 manyDups
           (mkStatus DuplicateKey "duplicate key") ex_b1
           Hsort Hpre eq_refl eq_refl eq_refl Hsize).
Defined.

(** The hypotheses of [commit_fatal_error_propagates] hold for a builder
    that fails on the key -1, the first of the sorted stream. *)
Lemma commit_fatal_error_propagates_witness :
  let this := ex_build ex_env false false ex_docs_negative in
  let d : Data := (ex_key (-1), ex_loc 2) in
  let st := mkStatus (OtherError 2) "BadValue" in
  sorter_done (_sorterComparison this) (_sorter this)
  = [] ++ d :: [(ex_key 5, ex_loc 1)]
  /\ addKey (BuilderInterface := ex_failing_bi) (spec_getBulkBuilder true)
       d.1 d.2
     = (st, spec_getBulkBuilder true)
  /\ isOK st = false
  /\ code st <> DuplicateKey
  /\ cr_status (commit (env := ex_env) (bi := ex_failing_bi) this ∅ false) = st.
Proof.
  intros this d st.
  assert (Hsort : sorter_done (_sorterComparison this) (_sorter this)
                  = [] ++ d :: [(ex_key 5, ex_loc 1)]) by reflexivity.
  assert (Hcode : code st <> DuplicateKey) by discriminate.
  split; [exact Hsort|]. split; [reflexivity|]. split; [reflexivity|].
  split; [exact Hcode|].
  apply (commit_fatal_error_propagates (env := ex_env) (bi := ex_failing_bi)
           this ∅ false [] d [(ex_key 5, ex_loc 1)] [] (spec_getBulkBuilder true)
           ∅ st (spec_getBulkBuilder true)
           Hsort eq_refl eq_refl eq_refl Hcode).
Defined.

(** The hypotheses of [multikey_flag_monotonic] hold for a build whose
    second document has the keys 1 and 2. *)
Lemma multikey_flag_monotonic_witness :
  BtreeBasedBulkAccessMethod_new (cmps := ex_cmps)
    (ex_descriptor false false) (ex_descriptor false false)
  = Returns (ex_bulk false false)
  /\ (1 < length (getKeys (Environment := ex_env) ex_doc_multi))%nat
  /\ _isMultiKey (ex_build ex_env false false
                    (ex_docs_multi_before
                     ++ (ex_doc_multi, ex_loc 2) :: ex_docs_multi_after))
     = true.
Proof.
  assert (Hnew : BtreeBasedBulkAccessMethod_new (cmps := ex_cmps)
                   (ex_descriptor false false) (ex_descriptor false false)
                 = Returns (ex_bulk false false)) by reflexivity.
  assert (Hkeys : (1 < length (getKeys (Environment := ex_env) ex_doc_multi))%nat)
    by (simpl; lia).
  split; [exact Hnew|]. split; [exact Hkeys|].
  apply (multikey_flag_monotonic (env := ex_env) (bi := ex_bi)
           (ex_descriptor false false) (ex_descriptor false false)
           (ex_bulk false false) ex_docs_multi_before
           (ex_doc_multi, ex_loc 2) ex_docs_multi_after ∅ false Hnew Hkeys).
Defined.

(** The hypotheses of [commit_count_mismatch_is_warning] hold for a build
    of two keys of which the builder rejects one for its size. *)
Lemma commit_count_mismatch_is_warning_witness :
  let this := ex_build ex_env false false ex_docs_large in
  let b := mkSpecBuilder true [(ex_key 1, ex_loc 1)] in
  (commitLoop (bi := ex_bi)
     (dupsAllowed_of (env := ex_env) (_real this))
     (dropDups_of (env := ex_env) (_real this))
     (sorter_done (_sorterComparison this) (_sorter this))
     (getBulkBuilder (BuilderInterface := ex_bi)
        (dupsAllowed_of (env := ex_env) (_real this))) ∅).2
  = Continues (bi := ex_bi) b ∅
  /\ dropDups_of (env := ex_env) (_real this) = false
  /\ (builder_commit (BuilderInterface := ex_bi) b false).1 = 1
  /\ _keysInserted this = 2
  /\ cr_status (commit (env := ex_env) (bi := ex_bi) this ∅ false) = Status_OK.
Proof.
  intros this b.
  assert (Hne : (builder_commit (BuilderInterface := ex_bi) b false).1
                <> _keysInserted this) by discriminate.
  split; [reflexivity|]. split; [reflexivity|]. split; [reflexivity|].
  split; [reflexivity|].
  apply (commit_count_mismatch_is_warning (env := ex_env) (bi := ex_bi)
           this ∅ false _ b ∅ eq_refl eq_refl Hne).
Defined.

(** The hypothesis of [progress_meter_calls] holds for the build of the
    documents with keys 7, 8, 7: three entries, three calls of [hit]. *)
Lemma progress_meter_calls_witness :
  let this := ex_build ex_env true true ex_docs_778 in
  let r := commit (env := ex_env) (bi := ex_bi) this ∅ false in
  isOK (cr_status r) = true
  /\ length (sorter_done (_sorterComparison this) (_sorter this)) = 3%nat
  /\ countHit (cr_trace r) = 3%nat
  /\ countFinished (cr_trace r) = 1%nat.
Proof.
  intros this r.
  assert (Hok : isOK (cr_status r) = true) by reflexivity.
  destruct (progress_meter_calls (env := ex_env) (bi := ex_bi) this ∅ false Hok)
    as (_ & _ & Hhit & Hfin).
  split; [exact Hok|]. split; [reflexivity|].
  split; [exact Hhit|exact Hfin].
Defined.

(** The hypotheses of [duplicate_accounting] hold for the scenario of the
    spec: documents with keys 7, 8, 7 in a unique index with
    drop-duplicates on.  One entry of key 7 is in the structure and the
    location of the other is in the set. *)
Lemma duplicate_accounting_witness :
  let this := ex_build ex_env true true ex_docs_778 in
  let r := commit (env := ex_env) (bi := ex_bi) this ∅ false in
  let group := filter (hasKey ex_sameKey (ex_key 7)) (_sorter this) in
  unique (_real this) = true
  /\ shouldIgnoreUniqueIndex (Environment := ex_env) (_real this) = false
  /\ dropDups_of (env := ex_env) (_real this) = true
  /\ length group = 2%nat
  /\ NoDup group.*2
  /\ Forall (fun e : Data => ex_tooLarge e.1 = false) group
  /\ isOK (cr_status r) = true
  /\ exists kept others,
       length others = 1%nat
       /\ filter (hasKey ex_sameKey (ex_key 7)) (sb_keys (cr_builder r))
          = [kept]
       /\ Forall (fun e : Data => e.2 ∈ cr_dupsToDrop r) others.
Proof.
  intros this r group.
  assert (Hgroup : group = [(ex_key 7, ex_loc 1); (ex_key 7, ex_loc 3)])
    by reflexivity.
  assert (Hn : (1 <= length group)%nat) by (rewrite Hgroup; simpl; lia).
  assert (Hlocs : NoDup group.*2).
  { rewrite Hgroup. simpl. apply NoDup_cons. split.
    - intros H. apply list_elem_of_singleton in H. discriminate.
    - apply NoDup_singleton. }
  assert (Hsmall : Forall (fun e : Data => ex_tooLarge e.1 = false) group).
  { rewrite Hgroup. by repeat constructor. }
  assert (Hok : isOK (cr_status r) = true) by reflexivity.
  split; [reflexivity|]. split; [reflexivity|]. split; [reflexivity|].
  split; [by rewrite Hgroup|]. split; [exact Hlocs|]. split; [exact Hsmall|].
  split; [exact Hok|].
  destruct (duplicate_accounting (env := ex_env) ex_sameKey ex_tooLarge
              ex_sameKey_sym ex_sameKey_trans (ex_key 7) this ∅ false
              eq_refl eq_refl eq_refl Hn Hlocs Hsmall Hok)
    as (kept & others & _ & Hlen & Hkept & Hdups & _).
  exists kept, others. split; [|by split].
  rewrite Hlen. reflexivity.
Defined.

(** C7 as stated fails when the build is told to ignore uniqueness: the
    index is unique, drop-duplicates is on, two documents have the key 7,
    [commit] returns OK, and both keys are in the structure; the set of
    duplicates is empty. *)
Lemma ignored_uniqueness_commits_every_key :
  let this := ex_build ex_env_ignoring true true ex_docs_77 in
  let r := commit (env := ex_env_ignoring) (bi := ex_bi) this ∅ false in
  unique (_real this) = true
  /\ dropDups_of (env := ex_env_ignoring) (_real this) = true
  /\ shouldIgnoreUniqueIndex (Environment := ex_env_ignoring) (_real this)
     = true
  /\ filter (hasKey ex_sameKey (ex_key 7)) (_sorter this)
     = [(ex_key 7, ex_loc 1); (ex_key 7, ex_loc 2)]
  /\ isOK (cr_status r) = true
  /\ sb_keys (cr_builder r) = [(ex_key 7, ex_loc 1); (ex_key 7, ex_loc 2)]
  /\ cr_dupsToDrop r = ∅.
Proof. intros this r. by vm_compute. Qed.

(** The two scenarios of the spec, run: keys 7, 8, 7 in a unique index
    with drop-duplicates on commit two keys, drop the location of the
    third document and leave the flag false; one document with two keys
    in a non-unique index commits both and sets the flag. *)
Example scenario_duplicate_dropped :
  let this := ex_build ex_env true true ex_docs_778 in
  let r := commit (env := ex_env) (bi := ex_bi) this ∅ false in
  cr_status r = Status_OK
  /\ (builder_commit (BuilderInterface := ex_bi) (cr_builder r) false).1 = 2
  /\ cr_dupsToDrop r = {[ ex_loc 3 ]}
  /\ _isMultiKey this = false.
Proof. intros this r. by vm_compute. Qed.

Example scenario_multikey :
  let this := ex_build ex_env false false [(ex_doc_multi, ex_loc 1)] in
  let r := commit (env := ex_env) (bi := ex_bi) this ∅ false in
  cr_status r = Status_OK
  /\ (builder_commit (BuilderInterface := ex_bi) (cr_builder r) false).1 = 2
  /\ cr_dupsToDrop r = ∅
  /\ _isMultiKey this = true
  /\ head (cr_trace r) = Some EvSetMultikey.
Proof. intros this r. by vm_compute. Qed.

(** *** More of [insert] and [commit] *)

Section Accumulators.
Context {cmps : Comparisons} {env : Environment} {bi : BuilderInterface}.

Lemma insert_loop_fields keys loc this :
  _sorter (insert_loop keys loc this)
  = _sorter this ++ ((fun k => (k, loc)) <$> keys)
  /\ _keysInserted (insert_loop keys loc this)
     = _keysInserted this + Z.of_nat (length keys)
  /\ _docsInserted (insert_loop keys loc this) = _docsInserted this
  /\ _real (insert_loop keys loc this) = _real this
  /\ _sorterComparison (insert_loop keys loc this) = _sorterComparison this.
Proof.
  revert this. induction keys as [|k keys IH]; intros this.
  - simpl. rewrite app_nil_r. repeat split; lia.
  - cbn [insert_loop].
    destruct (IH (mkBulk (_real this) (_sorterComparison this)
                    (_sorter this ++ [(k, loc)]) (_docsInserted this)
                    (_keysInserted this + 1) (_isMultiKey this)))
      as (H1 & H2 & H3 & H4 & H5).
    rewrite H1, H2, H3, H4, H5. simpl. rewrite <- app_assoc. simpl.
    repeat split; lia.
Qed.

Lemma insert_fields this obj loc numInserted :
  let this' := (insert this obj loc numInserted).1.2 in
  (insert this obj loc numInserted).1.1 = Status_OK
  /\ _sorter this' = _sorter this ++ pairsOf (obj, loc)
  /\ _keysInserted this'
     = _keysInserted this + Z.of_nat (length (getKeys obj))
  /\ _docsInserted this' = _docsInserted this + 1
  /\ _real this' = _real this
  /\ _sorterComparison this' = _sorterComparison this.
Proof.
  unfold insert. simpl.
  match goal with
  | |- context [insert_loop ?ks ?l ?t] =>
      destruct (insert_loop_fields ks l t) as (H1 & H2 & H3 & H4 & H5)
  end.
  rewrite H1, H2, H3, H4, H5. done.
Qed.

(** A build as the constructor leaves it. *)
Lemma constructed_fields real descriptor this0 :
  BtreeBasedBulkAccessMethod_new real descriptor = Returns this0 ->
  _docsInserted this0 = 0 /\ _keysInserted this0 = 0
  /\ _sorter this0 = [] /\ _real this0 = real.
Proof.
  intros Hnew. unfold BtreeBasedBulkAccessMethod_new in Hnew.
  destruct (BtreeExternalSortComparison_new _ _) as [c| | | |];
    simpl in Hnew; try discriminate.
  by inversion Hnew.
Qed.

(** What a run of [insert] calls adds to a build. *)
Lemma insert_all_fields docs :
  forall this1,
    let this := insert_all docs this1 in
    _docsInserted this = _docsInserted this1 + Z.of_nat (length docs)
    /\ _keysInserted this - Z.of_nat (length (_sorter this))
       = _keysInserted this1 - Z.of_nat (length (_sorter this1))
    /\ _sorter this = _sorter this1 ++ (docs ≫= pairsOf)
    /\ _real this = _real this1
    /\ _sorterComparison this = _sorterComparison this1.
Proof.
  induction docs as [|doc docs IH]; intros this1.
  - simpl. rewrite app_nil_r. repeat split; lia.
  - change (insert_all (doc :: docs) this1)
      with (insert_all docs (insert this1 doc.1 doc.2 None).1.2).
    destruct (IH (insert this1 doc.1 doc.2 None).1.2)
      as (G1 & G2 & G3 & G4 & G5).
    destruct (insert_fields this1 doc.1 doc.2 None)
      as (_ & F2 & F3 & F4 & F5 & F6).
    cbv zeta in *. rewrite G1, G2, G3, G4, G5, F2, F3, F4, F5, F6.
    rewrite length_app, Nat2Z.inj_add. unfold pairsOf at 1.
    rewrite length_fmap. rewrite length_cons, Nat2Z.inj_succ.
    change ((doc :: docs) ≫= pairsOf) with (pairsOf doc ++ (docs ≫= pairsOf)).
    rewrite <- app_assoc.
    replace (doc.1, doc.2) with doc by (by destruct doc).
    repeat split; lia.
Qed.

(** X14. The accumulators of a bulk build: after construction and any run
    of [insert] calls, [_docsInserted] is the number of calls,
    [_keysInserted] is the number of pairs the sorter holds, the sorter
    holds the pairs of the documents in the order inserted, each document
    giving one pair per key at its location, and the descriptor and the
    comparator are those of construction. *)
Theorem insert_all_accumulators real descriptor this0 docs :
  BtreeBasedBulkAccessMethod_new real descriptor = Returns this0 ->
  let this := insert_all docs this0 in
  _docsInserted this = Z.of_nat (length docs)
  /\ _keysInserted this = Z.of_nat (length (_sorter this))
  /\ _sorter this = docs ≫= pairsOf
  /\ _real this = real
  /\ _sorterComparison this = _sorterComparison this0.
Proof.
  intros Hnew this.
  destruct (constructed_fields _ _ _ Hnew) as (Hd & Hk & Hs & Hr).
  destruct (insert_all_fields docs this0) as (G1 & G2 & G3 & G4 & G5).
  fold this in G1, G2, G3, G4, G5.
  split; [rewrite G1, Hd; lia|].
  split; [rewrite Hk, Hs in G2; simpl in G2; lia|].
  split; [by rewrite G3, Hs|]. split; [by rewrite G4|done].
Qed.

(** X15. The count [insert] reports through [numInserted]: a null pointer
    stays null; otherwise the number of keys of the document is added, as
    a 64-bit integer: the result is in the range of [int64_t], differs
    from the sum by a multiple of [2^64], and is the sum when that is in
    range. *)
Theorem insert_numInserted this obj loc :
  (insert this obj loc None).2 = None
  /\ forall n, exists n',
      (insert this obj loc (Some n)).2 = Some n'
      /\ - 2 ^ 63 <= n' < 2 ^ 63
      /\ (n' - (n + Z.of_nat (length (getKeys obj)))) mod 2 ^ 64 = 0
      /\ (- 2 ^ 63 <= n + Z.of_nat (length (getKeys obj)) < 2 ^ 63 ->
          n' = n + Z.of_nat (length (getKeys obj))).
Proof.
  split; [done|]. intros n.
  set (sum := n + Z.of_nat (length (getKeys obj))).
  exists (to_int64 sum). split; [done|]. unfold to_int64.
  pose proof (Z.mod_pos_bound (sum + 2 ^ 63) (2 ^ 64) ltac:(lia)) as Hb.
  split; [lia|]. split.
  - replace ((sum + 2 ^ 63) mod 2 ^ 64 - 2 ^ 63 - sum)
      with ((sum + 2 ^ 63) mod 2 ^ 64 - (sum + 2 ^ 63)) by lia.
    rewrite Zminus_mod, Z.mod_mod by lia.
    by rewrite Z.sub_diag.
  - intros Hrange. rewrite Z.mod_small by lia. lia.
Qed.

End Accumulators.

Section CommitFacts.
Context {cmps : Comparisons} {env : Environment} {bi : BuilderInterface}.
Implicit Types (d : Data) (b : Builder) (dups : gset DiskLoc)
  (st : Status) (i : list Data) (r : LoopResult).

(** One pass of the loop, read off its code: what it may do to the set,
    and which statuses it may return with. *)
Lemma commitStep_effect da dd d b dups evs r :
  commitStep da dd d b dups = (evs, r) ->
  (loopDups r = dups \/ (dd = true /\ loopDups r = {[ d.2 ]} ∪ dups))
  /\ match r with
     | Continues _ dups' =>
         dups' = dups \/ Z.of_nat (size dups') <= kMaxDupsToStore
     | Returned st' b' dups' =>
         (st' = tooManyDups /\ dups' = {[ d.2 ]} ∪ dups)
         \/ (addKey b d.1 d.2 = (st', b') /\ isOK st' = false
             /\ dups' = dups)
     end.
Proof.
  unfold commitStep.
  destruct (addKey b d.1 d.2) as [st b'] eqn:Hadd.
  destruct (isOK st) eqn:Hok; simpl.
  { intros H; inversion H; subst. simpl. split; by left. }
  destruct (notDuplicateKey (code st)).
  { intros H; inversion H; subst. simpl. split; [by left|by right]. }
  destruct dd.
  - destruct (_ <? _) eqn:E; intros H; inversion H; subst; simpl.
    + split; [by right|by left].
    + split; [by right|]. right. lia.
  - destruct da; simpl; intros H; inversion H; subst; simpl.
    + split; by left.
    + split; [by left|by right].
Qed.

Lemma size_insert_le (x : DiskLoc) dups :
  (size ({[ x ]} ∪ dups) <= S (size dups))%nat.
Proof.
  rewrite size_union_alt, size_singleton.
  assert (size (dups ∖ {[ x ]}) <= size dups)%nat; [|lia].
  apply subseteq_size. apply subseteq_difference_l. done.
Qed.

Lemma commitLoop_effect da dd i :
  forall b dups evs r,
    commitLoop da dd i b dups = (evs, r) ->
    dups ⊆ loopDups r
    /\ loopDups r ⊆ dups ∪ list_to_set i.*2
    /\ (dd = false -> loopDups r = dups)
    /\ (Z.of_nat (size dups) <= kMaxDupsToStore ->
        match r with
        | Continues _ dups' => Z.of_nat (size dups') <= kMaxDupsToStore
        | Returned _ _ dups' => Z.of_nat (size dups') <= kMaxDupsToStore + 1
        end)
    /\ match r with
       | Continues _ _ => True
       | Returned st' _ _ =>
           isOK st' = false
           /\ (st' = tooManyDups
               \/ exists d b0 b1, d ∈ i /\ addKey b0 d.1 d.2 = (st', b1))
       end.
Proof.
  induction i as [|d i IH]; intros b dups evs r Hloop; simpl in Hloop.
  - inversion Hloop; subst. simpl.
    split; [done|]. split; [apply union_subseteq_l|]. done.
  - destruct (commitStep da dd d b dups) as [evs1 r1] eqn:Hstep.
    destruct (commitStep_effect _ _ _ _ _ _ _ Hstep) as [Hset Hres].
    assert (Hsub1 : dups ⊆ loopDups r1
                    /\ loopDups r1 ⊆ {[ d.2 ]} ∪ dups).
    { destruct Hset as [->|[_ ->]].
      - split; [done|apply union_subseteq_r].
      - split; [apply union_subseteq_r|done]. }
    destruct Hsub1 as [Hlo Hhi].
    assert (Hcons : {[ d.2 ]} ∪ dups
                    ⊆ dups ∪ list_to_set ((d :: i).*2 : list DiskLoc)).
    { rewrite fmap_cons. simpl. intros x Hx.
      apply elem_of_union in Hx as [Hx|Hx].
      - apply elem_of_union_r, elem_of_union_l. done.
      - by apply elem_of_union_l. }
    assert (Htail : (list_to_set (i.*2 : list DiskLoc) : gset DiskLoc)
                    ⊆ dups ∪ list_to_set ((d :: i).*2 : list DiskLoc)).
    { rewrite fmap_cons. simpl. intros x Hx.
      by apply elem_of_union_r, elem_of_union_r. }
    set (all := dups ∪ list_to_set ((d :: i).*2 : list DiskLoc)) in *.
    destruct r1 as [b1 dups1|st1 b1 dups1]; simpl in *.
    + destruct (commitLoop da dd i b1 dups1) as [evs2 r2] eqn:Hrest.
      inversion Hloop; subst.
      destruct (IH _ _ _ _ Hrest) as (I1 & I2 & I3 & I4 & I5).
      split; [by etrans|]. split.
      { etrans; [exact I2|]. intros x Hx.
        apply elem_of_union in Hx as [Hx|Hx].
        - by apply Hcons, Hhi.
        - by apply Htail. }
      split.
      { intros Hdd. rewrite (I3 Hdd).
        destruct Hset as [?|[? _]]; [done|congruence]. }
      split.
      { intros Hsize. apply I4. destruct Hres as [->|?]; done. }
      destruct r as [|st2 b2 dups2]; [done|].
      destruct I5 as [Hst [->|(x & b0 & b3 & Hx & Hadd)]].
      * split; [done|by left].
      * split; [done|]. right. exists x, b0, b3. split; [by right|done].
    + inversion Hloop; subst. simpl.
      split; [done|]. split; [by etrans|]. split.
      { intros Hdd. destruct Hset as [?|[? _]]; [done|congruence]. }
      split.
      { intros Hsize.
        destruct Hres as [[_ ->]|(_ & _ & ->)]; [|lia].
        pose proof (size_insert_le d.2 dups). lia. }
      destruct Hres as [[-> _]|(Hadd & Hok & _)].
      * split; [done|by left].
      * split; [done|]. right. exists d, b, b1. split; [left|done].
Qed.

Lemma commit_loop_result this dupsToDrop mi :
  exists evs r,
    commitLoop (dupsAllowed_of (_real this)) (dropDups_of (_real this))
      (sorter_done (_sorterComparison this) (_sorter this))
      (getBulkBuilder (dupsAllowed_of (_real this))) dupsToDrop = (evs, r)
    /\ cr_dupsToDrop (commit this dupsToDrop mi) = loopDups r
    /\ cr_status (commit this dupsToDrop mi)
       = match r with
         | Continues _ _ => Status_OK
         | Returned st _ _ => st
         end.
Proof.
  destruct (commitLoop (dupsAllowed_of (_real this)) (dropDups_of (_real this))
              (sorter_done (_sorterComparison this) (_sorter this))
              (getBulkBuilder (dupsAllowed_of (_real this))) dupsToDrop)
    as [evs r] eqn:Hloop.
  exists evs, r. split; [done|].
  destruct r as [b dups|st b dups].
  - by rewrite (commit_Continues _ _ _ _ _ _ Hloop).
  - by rewrite (commit_Returned _ _ _ _ _ _ _ Hloop).
Qed.

(** X16. What [commit] does to the caller's set: it only adds to it, what
    it adds are locations of entries of the sorted stream, and with
    drop-duplicates off it leaves the set as it was, whatever the builder
    answers and however [commit] returns. *)
Theorem commit_dupsToDrop_grows this dupsToDrop mi :
  let r := commit this dupsToDrop mi in
  dupsToDrop ⊆ cr_dupsToDrop r
  /\ cr_dupsToDrop r
     ⊆ dupsToDrop
       ∪ list_to_set (sorter_done (_sorterComparison this) (_sorter this)).*2
  /\ (dropDups_of (_real this) = false -> cr_dupsToDrop r = dupsToDrop).
Proof.
  intros r. unfold r.
  destruct (commit_loop_result this dupsToDrop mi) as (evs & lr & Hloop & -> & _).
  by destruct (commitLoop_effect _ _ _ _ _ _ _ Hloop) as (H1 & H2 & H3 & _).
Qed.

(** X17. The bound on the set: when the caller's set holds at most
    [kMaxDupsToStore] locations, it holds at most that many after
    [commit] returns OK, and at most one more after [commit] returns an
    error. *)
Theorem commit_dupsToDrop_bounded this dupsToDrop mi :
  Z.of_nat (size dupsToDrop) <= kMaxDupsToStore ->
  let r := commit this dupsToDrop mi in
  Z.of_nat (size (cr_dupsToDrop r)) <= kMaxDupsToStore + 1
  /\ (isOK (cr_status r) = true ->
      Z.of_nat (size (cr_dupsToDrop r)) <= kMaxDupsToStore).
Proof.
  intros Hsize r. unfold r.
  destruct (commit_loop_result this dupsToDrop mi)
    as (evs & lr & Hloop & -> & ->).
  destruct (commitLoop_effect _ _ _ _ _ _ _ Hloop) as (_ & _ & _ & H4 & H5).
  specialize (H4 Hsize).
  destruct lr as [b dups|st b dups]; simpl in *.
  - split; [lia|done].
  - split; [done|]. destruct H5 as [Hst _]. congruence.
Qed.

(** X18. The statuses of [commit]: it returns [Status::OK()] and has then
    called [finished] and the builder's [commit]; or it returns a status
    that is not OK, has called neither, and the status is the internal
    error for too many duplicates or one that [addKey] returned for an
    entry of the sorted stream. *)
Theorem commit_status_cases this dupsToDrop mi :
  let r := commit this dupsToDrop mi in
  (cr_status r = Status_OK
   /\ countFinished (cr_trace r) = 1%nat
   /\ EvBuilderCommit mi ∈ cr_trace r)
  \/ (isOK (cr_status r) = false
      /\ countFinished (cr_trace r) = 0%nat
      /\ (forall mi', EvBuilderCommit mi' ∉ cr_trace r)
      /\ (cr_status r = tooManyDups
          \/ exists d b0 b1,
               d ∈ sorter_done (_sorterComparison this) (_sorter this)
               /\ addKey b0 d.1 d.2 = (cr_status r, b1))).
Proof.
  intros r. unfold r. clear r.
  destruct (commitLoop (dupsAllowed_of (_real this)) (dropDups_of (_real this))
              (sorter_done (_sorterComparison this) (_sorter this))
              (getBulkBuilder (dupsAllowed_of (_real this))) dupsToDrop)
    as [evs [b dups|st b dups]] eqn:Hloop.
  - left. rewrite (commit_Continues _ _ _ _ _ _ Hloop). simpl.
    split; [done|].
    rewrite (commitLoop_Continues_calls _ _ _ _ _ _ _ _ Hloop).
    destruct (counts_prologue this) as (_ & _ & P3).
    destruct (counts_passCalls
                (sorter_done (_sorterComparison this) (_sorter this)))
      as (_ & _ & C3).
    destruct (counts_epilogue this mi (builder_commit b mi).1) as (_ & _ & E3).
    split.
    + rewrite !countFinished_app, P3, C3, E3. lia.
    + rewrite !elem_of_app. right; right.
      unfold commit_epilogue. apply elem_of_app. left.
      rewrite !elem_of_cons. right; right; right; left. done.
  - right. rewrite (commit_Returned _ _ _ _ _ _ _ Hloop). simpl.
    destruct (commitLoop_effect _ _ _ _ _ _ _ Hloop)
      as (_ & _ & _ & _ & Hst & Hwhich).
    apply commitLoop_Returned_calls in Hloop as (_ & pre & d & rest & _ & ->).
    destruct (returned_trace_facts this pre d) as (_ & _ & T3 & T4).
    done.
Qed.

Lemma addKeyCalls_app (t1 t2 : list Event) :
  addKeyCalls (t1 ++ t2) = addKeyCalls t1 ++ addKeyCalls t2.
Proof. apply omap_app. Qed.

Lemma addKeyCalls_passCalls i : addKeyCalls (i ≫= passCalls) = i.
Proof.
  induction i as [|d i IH]; [done|].
  change ((d :: i) ≫= passCalls) with (passCalls d ++ (i ≫= passCalls)).
  rewrite addKeyCalls_app, IH. done.
Qed.

Lemma addKeyCalls_prologue this : addKeyCalls (commit_prologue this) = [].
Proof. unfold commit_prologue. by destruct (_isMultiKey this). Qed.

Lemma addKeyCalls_epilogue this mi n :
  addKeyCalls (commit_epilogue this mi n) = [].
Proof. unfold commit_epilogue. by destruct (negb _ && negb _). Qed.

(** The loop on an index that allows duplicates, with drop-duplicates
    off, over entries for which [addKey] answers OK or duplicate key. *)
Lemma commitLoop_duplicates_allowed i :
  forall b dups,
    (forall b0 d, d ∈ i ->
       isOK (addKey b0 d.1 d.2).1 = true
       \/ code (addKey b0 d.1 d.2).1 = DuplicateKey) ->
    exists b',
      commitLoop true false i b dups = (i ≫= passCalls, Continues b' dups).
Proof.
  induction i as [|d i IH]; intros b dups Hadd; [by exists b|].
  destruct (addKey b d.1 d.2) as [st b1] eqn:Hd.
  assert (Hstep : commitStep true false d b dups
                  = (passCalls d, Continues b1 dups)).
  { destruct (Hadd b d ltac:(left)) as [Hok|Hcode]; rewrite Hd in *.
    - by apply (commitStep_ok _ _ _ _ _ st).
    - by apply (commitStep_dup_allowed _ _ _ st). }
  destruct (IH b1 dups) as [b' Hrest].
  { intros b0 x Hx. apply Hadd. by right. }
  exists b'. rewrite (commitLoop_cons_Continues _ _ _ _ _ _ _ _ _ Hstep).
  by rewrite Hrest.
Qed.

(** X19. An index that allows duplicates (not unique, or unique with
    uniqueness ignored), with drop-duplicates off: when [addKey] answers
    nothing but OK or duplicate key for the entries of the stream, every
    duplicate-key answer is passed over: [commit] returns
    [Status::OK()], every entry gets its [hit], and the caller's set is
    as it was. *)
Theorem commit_duplicates_allowed this dupsToDrop mi :
  dupsAllowed_of (_real this) = true ->
  dropDups_of (_real this) = false ->
  (forall b0 d,
     d ∈ sorter_done (_sorterComparison this) (_sorter this) ->
     isOK (addKey b0 d.1 d.2).1 = true
     \/ code (addKey b0 d.1 d.2).1 = DuplicateKey) ->
  let r := commit this dupsToDrop mi in
  cr_status r = Status_OK
  /\ cr_dupsToDrop r = dupsToDrop
  /\ countHit (cr_trace r)
     = length (sorter_done (_sorterComparison this) (_sorter this))
  /\ addKeyCalls (cr_trace r)
     = sorter_done (_sorterComparison this) (_sorter this).
Proof.
  intros Hda Hdd Hadd r. unfold r. clear r.
  destruct (commitLoop_duplicates_allowed _
              (getBulkBuilder (dupsAllowed_of (_real this))) dupsToDrop Hadd)
    as [b' Hloop].
  rewrite <- Hda in Hloop at 1. rewrite <- Hdd in Hloop at 1.
  rewrite (commit_Continues _ _ _ _ _ _ Hloop). simpl.
  split; [done|]. split; [done|].
  destruct (counts_prologue this) as (_ & P2 & _).
  destruct (counts_passCalls
              (sorter_done (_sorterComparison this) (_sorter this)))
    as (_ & C2 & _).
  destruct (counts_epilogue this mi (builder_commit b' mi).1) as (_ & E2 & _).
  rewrite !countHit_app, P2, C2, E2.
  rewrite !addKeyCalls_app, addKeyCalls_prologue, addKeyCalls_passCalls,
    addKeyCalls_epilogue, app_nil_r. simpl.
  split; [lia|done].
Qed.

(** X20. One forward pass over the stream: the entries [addKey] is called
    with are, in the order of the calls, an initial part of the sorted
    stream, each entry once; all of the stream when [commit] returns OK,
    and up to the entry at which it returns otherwise. *)
Theorem commit_addKey_calls this dupsToDrop mi :
  let i := sorter_done (_sorterComparison this) (_sorter this) in
  let r := commit this dupsToDrop mi in
  exists n : nat,
    addKeyCalls (cr_trace r) = take n i
    /\ (n <= length i)%nat
    /\ (isOK (cr_status r) = true -> n = length i)
    /\ (isOK (cr_status r) = false -> (0 < n)%nat
        /\ countHit (cr_trace r) = (n - 1)%nat).
Proof.
  intros i r. unfold r, i. clear r i.
  destruct (commitLoop (dupsAllowed_of (_real this)) (dropDups_of (_real this))
              (sorter_done (_sorterComparison this) (_sorter this))
              (getBulkBuilder (dupsAllowed_of (_real this))) dupsToDrop)
    as [evs [b dups|st b dups]] eqn:Hloop.
  - rewrite (commit_Continues _ _ _ _ _ _ Hloop). simpl.
    rewrite (commitLoop_Continues_calls _ _ _ _ _ _ _ _ Hloop).
    set (i := sorter_done _ _).
    exists (length i).
    rewrite !addKeyCalls_app, addKeyCalls_prologue, addKeyCalls_passCalls,
      addKeyCalls_epilogue, app_nil_r, firstn_all. simpl.
    split; [done|]. split; [done|]. split; [done|]. discriminate.
  - rewrite (commit_Returned _ _ _ _ _ _ _ Hloop). simpl.
    apply commitLoop_Returned_calls
      in Hloop as (Hst & pre & d & rest & -> & ->).
    exists (S (length pre)).
    rewrite !addKeyCalls_app, addKeyCalls_prologue, addKeyCalls_passCalls.
    simpl.
    destruct (returned_trace_facts this pre d) as (_ & T2 & _).
    simpl in T2.
    split.
    { rewrite (cons_middle d pre rest), app_assoc.
      replace (S (length pre)) with (length (pre ++ [d]))
        by (rewrite length_app; simpl; lia).
      by rewrite take_app_length. }
    split; [rewrite length_app; simpl; lia|].
    split; [congruence|].
    intros _. split; [lia|]. rewrite T2. lia.
Qed.

(** X21. A build without entries: [commit] returns OK, asks the sorter for
    no entry, calls neither [addKey] nor [hit], calls [finished] once,
    leaves the caller's set as it was and hands back the builder that its
    own [commit] left. *)
Theorem commit_empty_build this dupsToDrop mi :
  _sorter this = [] ->
  let r := commit this dupsToDrop mi in
  let b0 := getBulkBuilder (dupsAllowed_of (_real this)) in
  cr_status r = Status_OK
  /\ cr_dupsToDrop r = dupsToDrop
  /\ cr_builder r = (builder_commit b0 mi).2
  /\ cr_trace r
     = commit_prologue this
       ++ commit_epilogue this mi (builder_commit b0 mi).1
  /\ countNext (cr_trace r) = 0%nat
  /\ countHit (cr_trace r) = 0%nat
  /\ countFinished (cr_trace r) = 1%nat.
Proof.
  intros Hempty r b0. unfold r, b0. clear r b0.
  assert (Hloop :
    commitLoop (dupsAllowed_of (_real this)) (dropDups_of (_real this))
      (sorter_done (_sorterComparison this) (_sorter this))
      (getBulkBuilder (dupsAllowed_of (_real this))) dupsToDrop
    = ([], Continues (getBulkBuilder (dupsAllowed_of (_real this))) dupsToDrop)).
  { by rewrite Hempty. }
  rewrite (commit_Continues _ _ _ _ _ _ Hloop). simpl.
  destruct (counts_prologue this) as (P1 & P2 & P3).
  destruct (counts_epilogue this mi
              (builder_commit (getBulkBuilder (dupsAllowed_of (_real this)))
                 mi).1) as (E1 & E2 & E3).
  rewrite countNext_app, countHit_app, countFinished_app.
  rewrite P1, P2, P3, E1, E2, E3. done.
Qed.

(** X22. The progress of a whole build: for a build made by construction
    and [insert] calls whose [commit] returns OK, the number of [hit]
    calls is [_keysInserted], the total the progress meter was given
    (the sorter yields each pair added once). *)
Theorem commit_hits_equal_keysInserted
    real descriptor this0 docs dupsToDrop mi :
  BtreeBasedBulkAccessMethod_new real descriptor = Returns this0 ->
  let this := insert_all docs this0 in
  let r := commit this dupsToDrop mi in
  isOK (cr_status r) = true ->
  Z.of_nat (countHit (cr_trace r)) = _keysInserted this
  /\ Z.of_nat (countNext (cr_trace r)) = _keysInserted this
  /\ length (addKeyCalls (cr_trace r)) = length (docs ≫= pairsOf).
Proof.
  intros Hnew this r Hok.
  destruct (constructed_fields _ _ _ Hnew) as (_ & Hk & Hs & _).
  destruct (insert_all_fields docs this0) as (_ & Hkeys & Hsorter & _).
  fold this in Hkeys, Hsorter.
  rewrite Hk, Hs in Hkeys. rewrite Hs in Hsorter.
  simpl in Hkeys, Hsorter.
  assert (Hlen : length (sorter_done (_sorterComparison this) (_sorter this))
                 = length (_sorter this)).
  { unfold sorter_done. by rewrite merge_sort_Permutation. }
  unfold r in *. clear r.
  destruct (commitLoop (dupsAllowed_of (_real this)) (dropDups_of (_real this))
              (sorter_done (_sorterComparison this) (_sorter this))
              (getBulkBuilder (dupsAllowed_of (_real this))) dupsToDrop)
    as [evs [b dups|st b dups]] eqn:Hloop.
  - rewrite (commit_Continues _ _ _ _ _ _ Hloop). simpl.
    rewrite (commitLoop_Continues_calls _ _ _ _ _ _ _ _ Hloop).
    destruct (counts_prologue this) as (P1 & P2 & _).
    destruct (counts_passCalls
                (sorter_done (_sorterComparison this) (_sorter this)))
      as (C1 & C2 & _).
    destruct (counts_epilogue this mi (builder_commit b mi).1) as (E1 & E2 & _).
    rewrite !countNext_app, !countHit_app, P1, P2, C1, C2, E1, E2.
    rewrite !addKeyCalls_app, addKeyCalls_prologue, addKeyCalls_passCalls,
      addKeyCalls_epilogue, app_nil_r. simpl.
    rewrite Hlen, <- Hsorter. repeat split; lia.
  - rewrite (commit_Returned _ _ _ _ _ _ _ Hloop) in Hok. simpl in Hok.
    apply commitLoop_Returned_calls in Hloop as [Hst _]. congruence.
Qed.

End CommitFacts.

(** *** The facts above on the builds of the examples *)

(** The hypothesis of [insert_all_accumulators] holds for the build of the
    documents with keys 7, 8, 7 and one with the keys 1 and 2: four
    documents, five pairs. *)
Lemma insert_all_accumulators_witness :
  let docs := ex_docs_778 ++ [(ex_doc_multi, ex_loc 4)] in
  BtreeBasedBulkAccessMethod_new (cmps := ex_cmps)
    (ex_descriptor true true) (ex_descriptor true true)
  = Returns (ex_bulk true true)
  /\ _docsInserted (ex_build ex_env true true docs) = 4
  /\ _keysInserted (ex_build ex_env true true docs) = 5.
Proof.
  intros docs.
  assert (Hnew : BtreeBasedBulkAccessMethod_new (cmps := ex_cmps)
                   (ex_descriptor true true) (ex_descriptor true true)
                 = Returns (ex_bulk true true)) by reflexivity.
  split; [exact Hnew|].
  destruct (insert_all_accumulators (env := ex_env)
              (ex_descriptor true true) (ex_descriptor true true)
              (ex_bulk true true) docs Hnew) as (Hd & Hk & Hs & _).
  unfold ex_build. rewrite Hd, Hk, Hs. split; reflexivity.
Defined.

(** The hypothesis of [commit_dupsToDrop_bounded] holds for an empty set:
    the build of the documents with keys 7, 8, 7 leaves one location in
    it. *)
Lemma commit_dupsToDrop_bounded_witness :
  let this := ex_build ex_env true true ex_docs_778 in
  let r := commit (env := ex_env) (bi := ex_bi) this ∅ false in
  Z.of_nat (size (∅ : gset DiskLoc)) <= kMaxDupsToStore
  /\ cr_dupsToDrop r = {[ ex_loc 3 ]}
  /\ Z.of_nat (size (cr_dupsToDrop r)) <= kMaxDupsToStore + 1.
Proof.
  intros this r.
  assert (Hsize : Z.of_nat (size (∅ : gset DiskLoc)) <= kMaxDupsToStore).
  { rewrite size_empty. unfold kMaxDupsToStore. lia. }
  split; [exact Hsize|]. split.
  - vm_compute. reflexivity.
  - exact (proj1 (commit_dupsToDrop_bounded (env := ex_env) (bi := ex_bi)
                    this ∅ false Hsize)).
Defined.

(** The hypotheses of [commit_duplicates_allowed] hold for a unique index
    whose uniqueness the build ignores, with the example builder and two
    documents of key 7. *)
Lemma commit_duplicates_allowed_witness :
  let this := ex_build ex_env_ignoring true false ex_docs_77 in
  let r := commit (env := ex_env_ignoring) (bi := ex_bi) this ∅ false in
  dupsAllowed_of (env := ex_env_ignoring) (_real this) = true
  /\ dropDups_of (env := ex_env_ignoring) (_real this) = false
  /\ cr_status r = Status_OK
  /\ countHit (cr_trace r) = 2%nat.
Proof.
  intros this r.
  assert (Hadd : forall (b0 : Builder (BuilderInterface := ex_bi)) (d : Data),
             d ∈ sorter_done (_sorterComparison this) (_sorter this) ->
             isOK (addKey (BuilderInterface := ex_bi) b0 d.1 d.2).1 = true
             \/ code (addKey (BuilderInterface := ex_bi) b0 d.1 d.2).1
                = DuplicateKey).
  { intros b0 d Hd.
    change (sorter_done (_sorterComparison this) (_sorter this))
      with [(ex_key 7, ex_loc 1); (ex_key 7, ex_loc 2)] in Hd.
    assert (Hkey : d.1 = ex_key 7).
    { apply elem_of_cons in Hd as [->|Hd]; [done|].
      apply elem_of_cons in Hd as [->|Hd]; [done|].
      by apply elem_of_nil in Hd. }
    rewrite Hkey. simpl. unfold spec_addKey. simpl.
    destruct (negb (sb_dupsAllowed b0) && _); [by right|by left]. }
  split; [reflexivity|]. split; [reflexivity|].
  destruct (commit_duplicates_allowed (env := ex_env_ignoring) (bi := ex_bi)
              this ∅ false eq_refl eq_refl Hadd) as (Hst & _ & Hhit & _).
  split; [exact Hst|]. fold r in Hhit. rewrite Hhit. reflexivity.
Defined.

(** The hypothesis of [commit_empty_build] holds for a build just
    constructed. *)
Lemma commit_empty_build_witness :
  let this := ex_bulk true true in
  _sorter this = []
  /\ cr_status (commit (env := ex_env) (bi := ex_bi) this ∅ false)
     = Status_OK.
Proof.
  intros this. split; [reflexivity|].
  apply (commit_empty_build (env := ex_env) (bi := ex_bi)
           this ∅ false eq_refl).
Defined.

(** The hypotheses of [commit_hits_equal_keysInserted] hold for the build
    of the documents with keys 7, 8, 7 on a unique index with
    drop-duplicates on: three keys, three calls of [hit]. *)
Lemma commit_hits_equal_keysInserted_witness :
  let this := ex_build ex_env true true ex_docs_778 in
  let r := commit (env := ex_env) (bi := ex_bi) this ∅ false in
  BtreeBasedBulkAccessMethod_new (cmps := ex_cmps)
    (ex_descriptor true true) (ex_descriptor true true)
  = Returns (ex_bulk true true)
  /\ isOK (cr_status r) = true
  /\ Z.of_nat (countHit (cr_trace r)) = 3.
Proof.
  intros this r.
  assert (Hnew : BtreeBasedBulkAccessMethod_new (cmps := ex_cmps)
                   (ex_descriptor true true) (ex_descriptor true true)
                 = Returns (ex_bulk true true)) by reflexivity.
  assert (Hok : isOK (cr_status r) = true) by reflexivity.
  split; [exact Hnew|]. split; [exact Hok|].
  destruct (commit_hits_equal_keysInserted (env := ex_env) (bi := ex_bi)
              (ex_descriptor true true) (ex_descriptor true true)
              (ex_bulk true true) ex_docs_778 ∅ false Hnew Hok)
    as (Hhit & _).
  etrans; [exact Hhit|reflexivity].
Defined.

End BulkTheory.
